(** * Leader election over a shared MongoDB collection

    A shallow embedding of the [Leader] class (constructor, [initDatabase],
    [elect], [cleanup]) and of the store it talks to.

    - JavaScript numbers are modelled as exact rationals extended with
      [NaN] and the two infinities (no rounding); on whole milliseconds up
      to [MAX_SAFE_INTEGER] the sums and differences the class takes are
      the same as on doubles, and the properties about waiting are stated
      there.
    - A promise is a state transformer over the [Leader] object and the
      world it runs in, settling as [Resolved], [Rejected] or never
      ([Pending]).
    - The [Db] handle, the clock, the timer and the [crypto] module are the
      interface [Runtime]; the class is written once over that interface and
      then run on an in-memory store [MemWorld]. *)

From Stdlib Require Import QArith Qround Lqa Ascii.
From stdpp Require Import gmap strings list fin_maps.

Local Open Scope Z_scope.

(** ** JavaScript numbers *)

Inductive number :=
| NaN
| PInf
| NInf
| Num (q : Q).

(** [x < y] on numbers; every comparison with [NaN] is false. *)
Definition number_ltb (x y : number) : bool :=
  match x, y with
  | NaN, _ | _, NaN => false
  | PInf, _ => false
  | _, NInf => false
  | NInf, _ => true
  | _, PInf => true
  | Num a, Num b => negb (Qle_bool b a)
  end.

Definition number_leb (x y : number) : bool :=
  match x, y with
  | NaN, _ | _, NaN => false
  | _, PInf => true
  | NInf, _ => true
  | PInf, _ => false
  | _, NInf => false
  | Num a, Num b => Qle_bool a b
  end.

(** [ToBoolean] on a number: [0] and [NaN] are falsy. *)
Definition truthy (x : number) : bool :=
  match x with
  | NaN => false
  | Num q => negb (Qeq_bool q 0)
  | _ => true
  end.

(** [v || d] where [v] may be [undefined]. *)
Definition number_or (v : option number) (d : number) : number :=
  match v with
  | Some x => if truthy x then x else d
  | None => d
  end.

(** [Math.max(a, b)]: [NaN] if either argument is; otherwise the running
    maximum starts at [a] and moves to [b] only when [b] is greater. *)
Definition Math_max (a b : number) : number :=
  match a, b with
  | NaN, _ | _, NaN => NaN
  | _, _ => if number_ltb a b then b else a
  end.

Definition number_add (x y : number) : number :=
  match x, y with
  | NaN, _ | _, NaN => NaN
  | PInf, NInf | NInf, PInf => NaN
  | PInf, _ | _, PInf => PInf
  | NInf, _ | _, NInf => NInf
  | Num a, Num b => Num (a + b)
  end.

Definition number_neg (x : number) : number :=
  match x with
  | NaN => NaN
  | PInf => NInf
  | NInf => PInf
  | Num a => Num (- a)
  end.

Definition number_sub (x y : number) : number :=
  match x, y with
  | Num a, Num b => Num (a - b)
  | _, _ => number_add x (number_neg y)
  end.

(** [x / d] for a finite positive divisor [d] (the code only divides by
    [1000]). *)
Definition number_div_pos (x : number) (d : positive) : number :=
  match x with
  | Num a => Num (a / inject_Z (Zpos d))
  | _ => x
  end.

Definition of_ms (t : Z) : number := Num (inject_Z t).

(** [s || d] on strings: the empty string and [undefined] are falsy. *)
Definition string_or (v : option string) (d : string) : string :=
  match v with
  | Some EmptyString | None => d
  | Some s => s
  end.

(** ** Errors, promise outcomes, store commands *)

Inductive Error :=
| MongoError (codeName : string)
| TypeError (message : string).

(** [err.codeName]; [undefined] on errors that carry none. *)
Definition codeName (e : Error) : option string :=
  match e with
  | MongoError c => Some c
  | TypeError _ => None
  end.

Inductive Outcome (A : Type) :=
| Resolved (a : A)
| Rejected (e : Error)
| Pending.
Arguments Resolved {A} a.
Arguments Rejected {A} e.
Arguments Pending {A}.

Inductive Event := elected | cleaned.

(** A stored election record. [_id] is the identity the store gives the
    document on insertion. *)
Record Doc := mkDoc { _id : Z; leaderId : string; createdAt : Z }.

(** The document [elect] hands to [insertOne]. *)
Record NewDoc := mkNewDoc { new_leaderId : string; new_createdAt : Z }.

(** The calls the class makes on its [Db], indexed by what they resolve to. *)
Inductive Command : Type -> Type :=
| Ping : Command unit
    (* db.command({ ping: 1 }) *)
| SetTtlMonitorSleepSecs (secs : Z) : Command unit
    (* db.executeDbAdminCommand({ setParameter: 1, ttlMonitorSleepSecs }) *)
| CreateCollection (name : string) : Command string
    (* db.createCollection(name), resolving to the collection *)
| CreateIndexCreatedAt (collection : string) (expireAfterSeconds : number)
    : Command unit
    (* collection.createIndex({ createdAt: 1 }, { expireAfterSeconds }) *)
| InsertOne (collection : string) (d : NewDoc) : Command unit
    (* db.collection(name).insertOne(d) *)
| FindOneSorted (collection : string) : Command (option Doc)
    (* db.collection(name).findOne({}, { sort: { createdAt: 1, _id: 1 },
                                         projection: { leaderId: 1 } }) *)
| DropCollection (name : string) : Command unit.
    (* db.dropCollection(name) *)

(** ** The platform the class runs on *)

Class Runtime (W : Type) := {
  (** [Date.now()], in milliseconds *)
  Date_now : W -> Z;
  (** [crypto.randomBytes(n).toString('hex')] *)
  randomBytes_hex : nat -> W -> string * W;
  (** [crypto.createHash('sha1').update(s).digest('hex')] *)
  sha1_hex : string -> string;
  (** [new Promise(resolve => setTimeout(resolve, ms))] *)
  setTimeout : number -> W -> Outcome unit * W;
  (** a store call whose promise is chained on: issued, then settled *)
  await : forall {A : Type}, Command A -> W -> Outcome A * W;
  (** a store call whose promise is dropped: issued, never waited for *)
  detach : forall {A : Type}, Command A -> W -> W
}.

(** The largest delay a timer takes, and the largest whole number that
    number arithmetic keeps exact. *)
Definition TIMEOUT_MAX : Z := 2147483647.
Definition MAX_SAFE_INTEGER : Z := 9007199254740991.

(** Whole milliseconds on which the sums and differences of the class are
    exact. *)
Definition exact_ms (t : Z) : Prop := 0 <= t <= MAX_SAFE_INTEGER.

(** The delay [setTimeout(f, ms)] arms its timer with: [ms] cut to whole
    milliseconds when it lies between 1 and [TIMEOUT_MAX], and 1 in every
    other case ([NaN], below 1, above [TIMEOUT_MAX], infinite). *)
Definition timer_delay (ms : number) : Z :=
  match ms with
  | Num q =>
      if Qle_bool 1 q && Qle_bool q (inject_Z TIMEOUT_MAX) then Qfloor q else 1
  | _ => 1
  end.

(** Timers as the platform runs them: a timer that fires has waited the
    delay it was armed with, less at most one millisecond as [Date.now()]
    counts them. *)
Definition timers_as_armed (W : Type) `{Runtime W} : Prop :=
  forall (ms : number) (w w' : W),
    setTimeout ms w = (Resolved tt, w') ->
    Date_now w + timer_delay ms - 1 <= Date_now w'.

(** ** The Leader class *)

Record Options := mkOptions {
  opt_id : option string;
  opt_ttl : option number;
  opt_key : option string
}.

Record Leader := mkLeader {
  id : string;
  ttl : number;
  key : string;
  ttlTime : number;
  emitted : list Event   (* what [this.emit] has fired so far *)
}.

Definition set_ttlTime (t : number) (l : Leader) : Leader :=
  mkLeader (id l) (ttl l) (key l) t (emitted l).

Definition add_emitted (e : Event) (l : Leader) : Leader :=
  mkLeader (id l) (ttl l) (key l) (ttlTime l) (emitted l ++ [e]).

Section LeaderClass.

Context {W : Type} `{RT : Runtime W}.

Definition Promise (A : Type) : Type := Leader -> W -> Outcome A * Leader * W.

Definition resolve {A} (a : A) : Promise A := fun l w => (Resolved a, l, w).

Definition throw {A} (e : Error) : Promise A := fun l w => (Rejected e, l, w).

(** [p.then(f)] *)
Definition then_ {A B} (p : Promise A) (f : A -> Promise B) : Promise B :=
  fun l w =>
    match p l w with
    | (Resolved a, l', w') => f a l' w'
    | (Rejected e, l', w') => (Rejected e, l', w')
    | (Pending, l', w') => (Pending, l', w')
    end.

(** [p.catch(h)] *)
Definition catch_ {A} (p : Promise A) (h : Error -> Promise A) : Promise A :=
  fun l w =>
    match p l w with
    | (Rejected e, l', w') => h e l' w'
    | r => r
    end.

Notation "p 'THEN' f" := (then_ p f) (at level 61, left associativity).
Notation "p 'CATCH' h" := (catch_ p h) (at level 61, left associativity).

(** Reading [this] inside a callback. *)
Definition this {A} (f : Leader -> Promise A) : Promise A := fun l w => f l l w.

(** [this.db.<command>(...)], chained on. *)
Definition db {A} (c : Command A) : Promise A :=
  fun l w => let (o, w') := await c w in (o, l, w').

(** [this.db.<command>(...)] as a statement: the promise is dropped. *)
Definition db_unawaited {A} (c : Command A) : Promise unit :=
  fun l w => (Resolved tt, l, detach c w).

(** [this.emit(e)] *)
Definition emit (e : Event) : Promise unit :=
  fun l w => (Resolved tt, add_emitted e l, w).

Definition requested_ttl (options : option Options) : option number :=
  match options with
  | Some o => opt_ttl o
  | None => None
  end.

Definition requested_id (options : option Options) : option string :=
  match options with
  | Some o => opt_id o
  | None => None
  end.

Definition requested_key (options : option Options) : option string :=
  match options with
  | Some o => opt_key o
  | None => None
  end.

Definition constructor (options : option Options) (w : W) : Leader * W :=
  let '(id_, w1) :=
    match requested_id options with
    | Some (String a s) => (String a s, w)
    | _ => randomBytes_hex 32 w
    end in
  let ttl_ := Math_max (number_or (requested_ttl options) (Num 0)) (Num 5000) in
  let key_ := "leader-" +:+ sha1_hex (string_or (requested_key options) "default") in
  (mkLeader id_ ttl_ key_ (number_add (of_ms (Date_now w1)) ttl_) [], w1).

(** [err.codeName === 'NamespaceExists'] *)
Definition already_exists (err : Error) : bool :=
  bool_decide (codeName err = Some "NamespaceExists").

Definition initDatabase : Promise bool :=
  db Ping
    THEN (fun _ => db (SetTtlMonitorSleepSecs 1))
    CATCH (fun _ => resolve tt)
    THEN (fun _ => this (fun l => db (CreateCollection (key l))))
    THEN (fun collection =>
            this (fun l =>
              db (CreateIndexCreatedAt collection (number_div_pos (ttl l) 1000))))
    THEN (fun _ => resolve true)
    CATCH (fun err =>
             if already_exists err then resolve true else throw err).

(** The three callbacks of [elect], in order. *)
Definition elect_insert : Promise unit :=
  fun l w =>
    db (InsertOne (key l) (mkNewDoc (id l) (Date_now w))) l w.

Definition elect_query (_ : unit) : Promise (option Doc) :=
  fun l w =>
    let l' := set_ttlTime (number_add (of_ms (Date_now w)) (ttl l)) l in
    db (FindOneSorted (key l')) l' w.

(** What reading [result.leaderId] throws when [result] is [null]. *)
Definition null_dereference : Error :=
  TypeError "Cannot read properties of null (reading 'leaderId')".

Definition elect_decide (result : option Doc) : Promise bool :=
  match result with
  | None => throw null_dereference
  | Some r =>
      this (fun l =>
        if String.eqb (leaderId r) (id l)
        then emit elected THEN (fun _ => resolve true)
        else resolve false)
  end.

Definition elect : Promise bool :=
  elect_insert THEN elect_query THEN elect_decide.

Definition wait (ms : number) : Promise unit :=
  fun l w => let (o, w') := setTimeout ms w in (o, l, w').

Definition cleanup_callback (_ : unit) : Promise unit :=
  this (fun l => db_unawaited (DropCollection (key l)))
    THEN (fun _ => emit cleaned).

Definition cleanup : Promise unit :=
  fun l w =>
    (wait (number_sub (ttlTime l) (of_ms (Date_now w))) THEN cleanup_callback) l w.

(** The two halves of [initDatabase]: the best-effort administrative
    prelude with its catch, and the creation of the collection and its
    index with the normalising catch. *)
Definition privileged_stage : Promise unit :=
  db Ping
    THEN (fun _ => db (SetTtlMonitorSleepSecs 1))
    CATCH (fun _ => resolve tt).

Definition creation_stage : Promise bool :=
  this (fun l => db (CreateCollection (key l)))
    THEN (fun collection =>
            this (fun l =>
              db (CreateIndexCreatedAt collection (number_div_pos (ttl l) 1000))))
    THEN (fun _ => resolve true)
    CATCH (fun err =>
             if already_exists err then resolve true else throw err).

End LeaderClass.

Notation "p 'THEN' f" := (then_ p f) (at level 61, left associativity).
Notation "p 'CATCH' h" := (catch_ p h) (at level 61, left associativity).

(** ** Using the class *)

Section LeaderUse.

Context {W : Type} `{RT : Runtime W}.

(** A method call on an instance, whatever it settles to. *)
Inductive Call := CallInitDatabase | CallElect | CallCleanup.

Definition perform (c : Call) (l : Leader) (w : W) : Leader * W :=
  match c with
  | CallInitDatabase => let '(_, l', w') := initDatabase l w in (l', w')
  | CallElect => let '(_, l', w') := elect l w in (l', w')
  | CallCleanup => let '(_, l', w') := cleanup l w in (l', w')
  end.

Fixpoint perform_all (cs : list Call) (l : Leader) (w : W) : Leader * W :=
  match cs with
  | [] => (l, w)
  | c :: cs' => let '(l', w') := perform c l w in perform_all cs' l' w'
  end.

(** How the usage example of the README ends: each [process.exit()] of
    the promise chain is one way out. *)
Inductive Exit := NotInitialized | NotLeader | CleanupFinished.

(** The promise chain of the usage example: [initDatabase], then [elect]
    if the collection exists, then [cleanup] if this instance leads. *)
Definition usage_example : Promise Exit :=
  initDatabase
    THEN (fun collectionExists =>
            if collectionExists : bool
            then elect
                   THEN (fun isLeader =>
                           if isLeader : bool
                           then cleanup THEN (fun _ => resolve CleanupFinished)
                           else resolve NotLeader)
            else resolve NotInitialized).

End LeaderUse.

(** ** An in-memory store

    The external collaborator, after MongoDB's documented behaviour: named
    collections of documents, a unique [_id] per inserted document, an
    optional expire-after index on [createdAt] served by a background
    monitor, and commands that can fail.  This store hands out ascending
    identities; a driver's are unique but not in insertion order across
    clients, so no property of [elect] below is decided by which of two
    identities is the smaller.  What the environment
    does around each command (delay, a run of the expiry monitor, a
    failure) is read from a script, one [Turn] per processed command or
    timer; an exhausted script means undisturbed turns. *)

Record Coll := mkColl {
  docs : list Doc;
  expireAfterSeconds : option number
}.

Record Turn := mkTimedTurn {
  latency : N;              (* milliseconds that pass *)
  sweep : option Z;         (* the expiry monitor runs, at this server time *)
  fault : option Error;     (* the command fails with this error *)
  early : bool              (* a timer fires one millisecond early *)
}.

(** A turn on which timers are on time. *)
Definition mkTurn (l : N) (s : option Z) (f : option Error) : Turn :=
  mkTimedTurn l s f false.

Definition quiet : Turn := mkTurn 0 None None.

Definition Request : Type := { A : Type & Command A }.

Definition request {A : Type} (c : Command A) : Request := existT A c.

Record MemWorld := mkMemWorld {
  clock : Z;
  colls : gmap string Coll;
  next_oid : Z;
  admin : bool;
  ttlMonitorSleepSecs : Z;
  script : list Turn;
  inflight : list Request;
  entropy : list N
}.

Definition set_clock (t : Z) (w : MemWorld) : MemWorld :=
  mkMemWorld t (colls w) (next_oid w) (admin w) (ttlMonitorSleepSecs w)
             (script w) (inflight w) (entropy w).

Definition set_colls (m : gmap string Coll) (w : MemWorld) : MemWorld :=
  mkMemWorld (clock w) m (next_oid w) (admin w) (ttlMonitorSleepSecs w)
             (script w) (inflight w) (entropy w).

Definition set_next_oid (n : Z) (w : MemWorld) : MemWorld :=
  mkMemWorld (clock w) (colls w) n (admin w) (ttlMonitorSleepSecs w)
             (script w) (inflight w) (entropy w).

Definition set_ttlMonitorSleepSecs (s : Z) (w : MemWorld) : MemWorld :=
  mkMemWorld (clock w) (colls w) (next_oid w) (admin w) s
             (script w) (inflight w) (entropy w).

Definition set_script (s : list Turn) (w : MemWorld) : MemWorld :=
  mkMemWorld (clock w) (colls w) (next_oid w) (admin w) (ttlMonitorSleepSecs w)
             s (inflight w) (entropy w).

Definition set_inflight (r : list Request) (w : MemWorld) : MemWorld :=
  mkMemWorld (clock w) (colls w) (next_oid w) (admin w) (ttlMonitorSleepSecs w)
             (script w) r (entropy w).

Definition set_entropy (e : list N) (w : MemWorld) : MemWorld :=
  mkMemWorld (clock w) (colls w) (next_oid w) (admin w) (ttlMonitorSleepSecs w)
             (script w) (inflight w) e.

(** The documents of a collection; none when it does not exist. *)
Definition docs_of (name : string) (w : MemWorld) : list Doc :=
  match colls w !! name with
  | Some c => docs c
  | None => []
  end.

Definition exists_coll (name : string) (w : MemWorld) : bool :=
  match colls w !! name with
  | Some _ => true
  | None => false
  end.

(** The sort [{ createdAt: 1, _id: 1 }]: [a] is not after [b]. *)
Definition sorts_before (a b : Doc) : bool :=
  (createdAt a <? createdAt b)
  || ((createdAt a =? createdAt b) && (_id a <=? _id b)).

(** The document that comes first under the sort. *)
Fixpoint first_sorted (ds : list Doc) : option Doc :=
  match ds with
  | [] => None
  | d :: ds' =>
      match first_sorted ds' with
      | Some m => Some (if sorts_before d m then d else m)
      | None => Some d
      end
  end.

Definition number_eqb (x y : number) : bool :=
  match x, y with
  | PInf, PInf | NInf, NInf => true
  | Num a, Num b => Qeq_bool a b
  | _, _ => false
  end.

(** A document is expired at server time [t] once [expire] seconds have
    passed since its [createdAt]. *)
Definition expired (expire : number) (t : Z) (d : Doc) : bool :=
  number_leb expire (number_div_pos (of_ms (t - createdAt d)) 1000).

Definition sweep_coll (t : Z) (c : Coll) : Coll :=
  match expireAfterSeconds c with
  | Some e => mkColl (filter (fun d => negb (expired e t d)) (docs c)) (Some e)
  | None => c
  end.

Definition ttl_monitor (t : Z) (w : MemWorld) : MemWorld :=
  set_colls (sweep_coll t <$> colls w) w.

(** What the store does with a command that reaches it. *)
Definition serve {A : Type} (c : Command A) (w : MemWorld)
  : Outcome A * MemWorld :=
  match c in Command T return Outcome T * MemWorld with
  | Ping => (Resolved tt, w)
  | SetTtlMonitorSleepSecs s =>
      if admin w
      then (Resolved tt, set_ttlMonitorSleepSecs s w)
      else (Rejected (MongoError "Unauthorized"), w)
  | CreateCollection name =>
      match colls w !! name with
      | Some _ => (Rejected (MongoError "NamespaceExists"), w)
      | None => (Resolved name, set_colls (<[name := mkColl [] None]> (colls w)) w)
      end
  | CreateIndexCreatedAt name e =>
      match colls w !! name with
      | Some c =>
          match expireAfterSeconds c with
          | Some e' =>
              if number_eqb e e'
              then (Resolved tt, w)
              else (Rejected (MongoError "IndexOptionsConflict"), w)
          | None =>
              (Resolved tt, set_colls (<[name := mkColl (docs c) (Some e)]> (colls w)) w)
          end
      | None =>
          (Resolved tt, set_colls (<[name := mkColl [] (Some e)]> (colls w)) w)
      end
  | InsertOne name d =>
      let c := default (mkColl [] None) (colls w !! name) in
      let d' := mkDoc (next_oid w) (new_leaderId d) (new_createdAt d) in
      (Resolved tt,
       set_next_oid (next_oid w + 1)
         (set_colls (<[name := mkColl (docs c ++ [d']) (expireAfterSeconds c)]> (colls w)) w))
  | FindOneSorted name => (Resolved (first_sorted (docs_of name w)), w)
  | DropCollection name =>
      match colls w !! name with
      | Some _ => (Resolved tt, set_colls (delete name (colls w)) w)
      | None => (Rejected (MongoError "NamespaceNotFound"), w)
      end
  end.

(** The environment's next turn: time passes and the expiry monitor may run. *)
Definition take_turn (w : MemWorld) : Turn * MemWorld :=
  let '(t, w1) :=
    match script w with
    | [] => (quiet, w)
    | t :: s => (t, set_script s w)
    end in
  let w2 := set_clock (clock w1 + Z.of_N (latency t)) w1 in
  (t, match sweep t with Some now => ttl_monitor now w2 | None => w2 end).

(** A command reaches the store and is answered. *)
Definition process {A : Type} (c : Command A) (w : MemWorld)
  : Outcome A * MemWorld :=
  let '(t, w1) := take_turn w in
  match fault t with
  | Some e => (Rejected e, w1)
  | None => serve c w1
  end.

(** Requests nobody waits for are processed in the order they were sent;
    their answers go nowhere. *)
Fixpoint deliver (rs : list Request) (w : MemWorld) : MemWorld :=
  match rs with
  | [] => w
  | existT _ c :: rs' => deliver rs' (snd (process c w))
  end.

Definition flush (w : MemWorld) : MemWorld :=
  deliver (inflight w) (set_inflight [] w).

Definition mem_await {A : Type} (c : Command A) (w : MemWorld)
  : Outcome A * MemWorld :=
  process c (flush w).

Definition mem_detach {A : Type} (c : Command A) (w : MemWorld) : MemWorld :=
  set_inflight (inflight w ++ [request c]) w.

(** The timer fires once the delay it was armed with has passed, one
    millisecond sooner on an early turn, plus whatever lateness the turn
    brings. *)
Definition mem_setTimeout (ms : number) (w : MemWorld) : Outcome unit * MemWorld :=
  let '(t, w1) := take_turn w in
  (Resolved tt,
   set_clock (clock w1 + timer_delay ms - (if early t then 1 else 0)) w1).

Definition hex_digit (d : N) : Ascii.ascii :=
  match d with
  | 0 => "0" | 1 => "1" | 2 => "2" | 3 => "3" | 4 => "4" | 5 => "5"
  | 6 => "6" | 7 => "7" | 8 => "8" | 9 => "9" | 10 => "a" | 11 => "b"
  | 12 => "c" | 13 => "d" | 14 => "e" | _ => "f"
  end%N%char.

Fixpoint hex_of (digits : nat) (x : N) : string :=
  match digits with
  | O => EmptyString
  | S n => hex_of n (x / 16) +:+ String (hex_digit (x mod 16)) EmptyString
  end.

Definition mem_randomBytes_hex (n : nat) (w : MemWorld) : string * MemWorld :=
  match entropy w with
  | [] => (hex_of (2 * n) 0, w)
  | x :: e => (hex_of (2 * n) x, set_entropy e w)
  end.

(** Stand-in for the digest: the hexadecimal spelling of the bytes of the
    name.  The protocol uses the digest only as a function of the name. *)
Fixpoint hex_spell (s : string) : string :=
  match s with
  | EmptyString => EmptyString
  | String a s' => hex_of 2 (N_of_ascii a) +:+ hex_spell s'
  end.

#[export] Instance MemRuntime : Runtime MemWorld := {
  Date_now := clock;
  randomBytes_hex := mem_randomBytes_hex;
  sha1_hex := hex_spell;
  setTimeout := mem_setTimeout;
  await := @mem_await;
  detach := @mem_detach
}.

(** The world as a command finds it when it reaches the store: earlier
    unawaited requests have been processed and the environment has had its
    turn. *)
Definition arrive (w : MemWorld) : MemWorld := snd (take_turn (flush w)).

(** ** Several candidates on one store

    Each candidate is a process with its own clock (the shared clock plus a
    fixed skew) that runs [elect] one store call at a time; a schedule names
    the process that moves next. *)

Inductive Stage :=
| Unregistered
| Registered
| Returned (o : Outcome bool).

Record Proc := mkProc { self : Leader; skew : Z; stage : Stage }.

Definition on_local_clock {A} (s : Z) (p : Promise A) : Promise A :=
  fun l w =>
    let '(o, l', w') := p l (set_clock (clock w + s) w) in
    (o, l', set_clock (clock w' - s) w').

Definition step (p : Proc) (w : MemWorld) : Proc * MemWorld :=
  match stage p with
  | Unregistered =>
      let '(o, l, w') := on_local_clock (skew p) elect_insert (self p) w in
      (mkProc l (skew p)
         match o with
         | Resolved _ => Registered
         | Rejected e => Returned (Rejected e)
         | Pending => Returned Pending
         end, w')
  | Registered =>
      let '(o, l, w') :=
        on_local_clock (skew p) (elect_query tt THEN elect_decide) (self p) w in
      (mkProc l (skew p) (Returned o), w')
  | Returned _ => (p, w)
  end.

Fixpoint run (schedule : list nat) (ps : list Proc) (w : MemWorld)
  : list Proc * MemWorld :=
  match schedule with
  | [] => (ps, w)
  | i :: schedule' =>
      match ps !! i with
      | Some p => let '(p', w') := step p w in run schedule' (<[i := p']> ps) w'
      | None => run schedule' ps w
      end
  end.

(** The identities the store has handed out are distinct within each
    collection and all below the next one. *)
Definition distinct_ids (w : MemWorld) : Prop :=
  forall name c,
    colls w !! name = Some c ->
    NoDup (_id <$> docs c) /\ Forall (fun d => _id d < next_oid w) (docs c).

(** Nothing is scripted and nothing is in flight. *)
Definition quiet_world (w : MemWorld) : Prop :=
  script w = [] /\ inflight w = [].

(** Every process inserts, in some order, before any process queries. *)
Definition serialized (n : nat) (schedule : list nat) : Prop :=
  exists inserts queries : list nat,
    schedule = inserts ++ queries /\
    inserts ≡ₚ seq 0 n /\
    queries ≡ₚ seq 0 n.

(** A process once its insert has gone through. *)
Definition registered (p : Proc) : Proc := mkProc (self p) (skew p) Registered.

Definition returned (b : bool) (p : Proc) : bool :=
  match stage p with
  | Returned (Resolved b') => Bool.eqb b b'
  | _ => false
  end.

Definition count_returned (b : bool) (ps : list Proc) : nat :=
  length (List.filter (returned b) ps).

(** ** Scenarios

    Concrete stores and candidates the properties below are run on. *)

(** A store nobody has touched, reached over a connection without
    administrative privileges. *)
Definition fresh_store : MemWorld := mkMemWorld 0 ∅ 1 false 60 [] [] [].

Definition candidate (name : string) (ttl_ : Q) : Leader :=
  fst (constructor
         (Some (mkOptions (Some name) (Some (Num ttl_)) (Some "daily-job")))
         fresh_store).

Definition alice : Leader := candidate "alice" 5000.
Definition bob : Leader := candidate "bob" 5000.
Definition carol : Leader := candidate "carol" 5000.

(** A candidate built with default options. *)
Definition solo : Leader := fst (constructor None fresh_store).

Definition unauthorized : Error := MongoError "Unauthorized".
Definition unreachable : Error := MongoError "HostUnreachable".

(** The store after [solo] has initialised it. *)
Definition initialised : MemWorld := snd (initDatabase solo fresh_store).

(** [solo] and the store after it has been elected. *)
Definition solo_elected : Leader := snd (fst (elect solo initialised)).
Definition after_election : MemWorld := snd (elect solo initialised).

(** The same store, about to refuse the next command but one. *)
Definition refusing_drop : MemWorld :=
  set_script [quiet; mkTurn 0 None (Some unauthorized)] after_election.

(** An initialised store whose expiry monitor, running on a clock far
    ahead of the candidate's, sweeps between the insert and the query. *)
Definition clock_ahead : MemWorld :=
  set_script [quiet; mkTurn 0 (Some 1000000) None] initialised.

(** A store that cannot be reached for the first command. *)
Definition ping_fails : MemWorld :=
  set_script [mkTurn 0 None (Some unreachable)] fresh_store.

(** A store that refuses the third command. *)
Definition create_refused : MemWorld :=
  set_script [quiet; quiet; mkTurn 0 None (Some unauthorized)] fresh_store.

(** Three candidates of one group, on clocks that disagree. *)
Definition three_candidates : list Proc :=
  [mkProc alice 40 Unregistered;
   mkProc bob (-15) Unregistered;
   mkProc carol 0 Unregistered].

(** A collection that came into being through an insert alone: [alice]
    has called [elect] on the untouched store, without [initDatabase]. *)
Definition implicit_collection : MemWorld := snd (elect alice fresh_store).

(** A candidate asking for a lock that never expires. *)
Definition forever : Leader :=
  fst (constructor (Some (mkOptions (Some "forever") (Some PInf) (Some "daily-job")))
                   fresh_store).

(** Stores that refuse the insert, and the query, of the next [elect]. *)
Definition insert_refused : MemWorld :=
  set_script [mkTurn 0 None (Some unreachable)] initialised.

Definition query_refused : MemWorld :=
  set_script [quiet; mkTurn 0 None (Some unreachable)] initialised.

(** [alice] elected and [bob] not, on one initialised store. *)
Definition two_registered : MemWorld :=
  snd (elect bob (snd (elect alice (snd (initDatabase alice fresh_store))))).

Definition bob_follower : Leader :=
  snd (fst (elect bob (snd (elect alice (snd (initDatabase alice fresh_store)))))).

(** The store after [solo]'s election, with a timer about to fire a
    millisecond early. *)
Definition early_timer : MemWorld :=
  set_script [mkTimedTurn 0 None None true] after_election.

(** A candidate asking for a lock of 3000000000 milliseconds, elected on
    the untouched store. *)
Definition patient : Leader := candidate "patient" 3000000000.
Definition patient_elected : Leader := snd (fst (elect patient fresh_store)).
Definition patient_world : MemWorld := snd (elect patient fresh_store).

(** * Properties *)

(** ** Numbers *)

Lemma number_ltb_below_floor (v : number) :
  number_ltb v (Num 5000) = true ->
  Math_max (number_or (Some v) (Num 0)) (Num 5000) = Num 5000.
Proof.
  intros Hlt. unfold number_or.
  destruct (truthy v); [| reflexivity].
  destruct v; try discriminate; try reflexivity.
  unfold Math_max. now rewrite Hlt.
Qed.

Lemma number_leb_above_floor (v : number) :
  number_leb (Num 5000) v = true ->
  Math_max (number_or (Some v) (Num 0)) (Num 5000) = v.
Proof.
  intros Hle. destruct v as [| | |q]; try discriminate; [reflexivity|].
  simpl in Hle. apply Qle_bool_iff in Hle.
  assert (Hnz : Qeq_bool q 0 = false).
  { destruct (Qeq_bool q 0) eqn:E; [|reflexivity].
    apply Qeq_bool_iff in E. lra. }
  unfold number_or, truthy. rewrite Hnz. simpl.
  assert (Hge : Qle_bool 5000 q = true) by now apply Qle_bool_iff.
  now rewrite Hge.
Qed.

Lemma Math_max_floor (v : option number) :
  number_leb (Num 5000) (Math_max (number_or v (Num 0)) (Num 5000)) = true.
Proof.
  destruct v as [x|]; [|reflexivity].
  unfold number_or. destruct (truthy x) eqn:Ht; [|reflexivity].
  destruct x as [| | |q]; try discriminate; try reflexivity.
  unfold Math_max. simpl.
  destruct (Qle_bool 5000 q) eqn:E; simpl; [exact E | reflexivity].
Qed.

Section LeaderFacts.

Context {W : Type} `{RT : Runtime W}.

(** ** The constructor *)

Lemma constructor_ttl (options : option Options) (w : W) :
  ttl (fst (constructor options w))
  = Math_max (number_or (requested_ttl options) (Num 0)) (Num 5000).
Proof.
  unfold constructor.
  destruct (requested_id options) as [[|a s]|];
    try destruct (randomBytes_hex 32 w); reflexivity.
Qed.

Lemma constructor_ttl_at_least_floor (options : option Options) (w : W) :
  number_leb (Num 5000) (ttl (fst (constructor options w))) = true.
Proof. rewrite constructor_ttl. apply Math_max_floor. Qed.

(** C6. The constructor never rejects a [ttl]: an absent one and any one
    below 5000 give the instance a [ttl] of exactly 5000, and one at or
    above 5000 is kept as it is. *)
Theorem constructor_ttl_clamped (options : option Options) (w : W) :
  (requested_ttl options = None ->
   ttl (fst (constructor options w)) = Num 5000)
  /\ (forall v, requested_ttl options = Some v ->
                number_ltb v (Num 5000) = true ->
                ttl (fst (constructor options w)) = Num 5000)
  /\ (forall v, requested_ttl options = Some v ->
                number_leb (Num 5000) v = true ->
                ttl (fst (constructor options w)) = v).
Proof.
  rewrite constructor_ttl. repeat split.
  - intros ->. reflexivity.
  - intros v -> Hlt. now apply number_ltb_below_floor.
  - intros v -> Hle. now apply number_leb_above_floor.
Qed.

(** ** [initDatabase] *)

Lemma db_run {A} (c : Command A) (l : Leader) (w : W) :
  db c l w = (fst (await c w), l, snd (await c w)).
Proof. unfold db. now destruct (await c w). Qed.

Lemma privileged_stage_ping_rejected (l : Leader) (w w1 : W) (e : Error) :
  await Ping w = (Rejected e, w1) ->
  privileged_stage l w = (Resolved tt, l, w1).
Proof.
  intros Hp. unfold privileged_stage, catch_, then_, db, resolve.
  now rewrite Hp.
Qed.

Lemma privileged_stage_admin_settled (l : Leader) (w w1 w2 : W) (o : Outcome unit) :
  await Ping w = (Resolved tt, w1) ->
  await (SetTtlMonitorSleepSecs 1) w1 = (o, w2) ->
  o <> Pending ->
  privileged_stage l w = (Resolved tt, l, w2).
Proof.
  intros Hp Ha Ho. unfold privileged_stage, catch_, then_, db, resolve.
  rewrite Hp, Ha. destruct o as [[]| |]; congruence.
Qed.

Lemma privileged_stage_never_rejects (l l' : Leader) (w w' : W) (e : Error) :
  privileged_stage l w <> (Rejected e, l', w').
Proof.
  unfold privileged_stage, catch_, then_, db, resolve.
  destruct (await Ping w) as [[[]| |] w1]; try discriminate.
  destruct (await (SetTtlMonitorSleepSecs 1) w1) as [[[]| |] w2]; discriminate.
Qed.

(** The outer catch of [initDatabase] spans the whole chain, but the
    prelude cannot reject, so it only ever sees the creation steps. *)
Lemma initDatabase_stages (l : Leader) (w : W) :
  initDatabase l w = (privileged_stage THEN (fun _ => creation_stage)) l w.
Proof.
  unfold initDatabase, privileged_stage, creation_stage.
  unfold catch_, then_, db, this, resolve, throw.
  destruct (await Ping w) as [[[]| |] w1]; try reflexivity.
  destruct (await (SetTtlMonitorSleepSecs 1) w1) as [[[]| |] w2]; reflexivity.
Qed.

Lemma creation_stage_run (l : Leader) (w : W) :
  creation_stage l w =
  match await (CreateCollection (key l)) w with
  | (Resolved collection, w1) =>
      match await (CreateIndexCreatedAt collection (number_div_pos (ttl l) 1000)) w1 with
      | (Resolved _, w2) => (Resolved true, l, w2)
      | (Rejected e, w2) =>
          (if already_exists e then Resolved true else Rejected e, l, w2)
      | (Pending, w2) => (Pending, l, w2)
      end
  | (Rejected e, w1) =>
      (if already_exists e then Resolved true else Rejected e, l, w1)
  | (Pending, w1) => (Pending, l, w1)
  end.
Proof.
  unfold creation_stage, catch_, then_, db, this, resolve, throw.
  destruct (await (CreateCollection (key l)) w) as [[c|e|] w1].
  - destruct (await (CreateIndexCreatedAt c _) w1) as [[[]|e|] w2];
      try reflexivity.
    now destruct (already_exists e).
  - now destruct (already_exists e).
  - reflexivity.
Qed.

Lemma creation_stage_never_false (l l' : Leader) (w w' : W) :
  creation_stage l w <> (Resolved false, l', w').
Proof.
  rewrite creation_stage_run.
  destruct (await (CreateCollection (key l)) w) as [[c|e|] w1].
  - destruct (await (CreateIndexCreatedAt c _) w1) as [[[]|e|] w2];
      try discriminate.
    destruct (already_exists e); discriminate.
  - destruct (already_exists e); discriminate.
  - discriminate.
Qed.

(** C5. Once the prelude is over, [initDatabase] resolves to [true] when
    both creation steps succeed and when either of them fails with the
    already-exists error; a creation step failing with any other error
    rejects [initDatabase] with that error; and no run resolves to
    [false]. *)
Theorem initDatabase_true_or_rejects (l : Leader) (w : W) :
  (forall l' w', initDatabase l w <> (Resolved false, l', w'))
  /\ (forall w0, privileged_stage l w = (Resolved tt, l, w0) ->
      (forall collection w1 w2,
          await (CreateCollection (key l)) w0 = (Resolved collection, w1) ->
          await (CreateIndexCreatedAt collection (number_div_pos (ttl l) 1000)) w1
            = (Resolved tt, w2) ->
          initDatabase l w = (Resolved true, l, w2))
      /\ (forall e w1,
          await (CreateCollection (key l)) w0 = (Rejected e, w1) ->
          initDatabase l w
          = (if already_exists e then Resolved true else Rejected e, l, w1))
      /\ (forall collection e w1 w2,
          await (CreateCollection (key l)) w0 = (Resolved collection, w1) ->
          await (CreateIndexCreatedAt collection (number_div_pos (ttl l) 1000)) w1
            = (Rejected e, w2) ->
          initDatabase l w
          = (if already_exists e then Resolved true else Rejected e, l, w2))).
Proof.
  split.
  - intros l' w'. rewrite initDatabase_stages. unfold then_.
    destruct (privileged_stage l w) as [[[[]|e|] l1] w1] eqn:Hp;
      try discriminate.
    apply creation_stage_never_false.
  - intros w0 Hp.
    assert (Hrun : initDatabase l w = creation_stage l w0).
    { rewrite initDatabase_stages. unfold then_. now rewrite Hp. }
    rewrite Hrun, creation_stage_run. repeat split.
    + intros c w1 w2 Hc Hi. now rewrite Hc, Hi.
    + intros e w1 Hc. now rewrite Hc.
    + intros c e w1 w2 Hc Hi. now rewrite Hc, Hi.
Qed.

(** C8. Whatever the administrative command answers, a failure included,
    [initDatabase] carries on with the creation of the collection and its
    index, from the world that command left; the answer itself is
    dropped. *)
Theorem initDatabase_admin_failure_absorbed
    (l : Leader) (w w1 w2 : W) (o : Outcome unit) :
  await Ping w = (Resolved tt, w1) ->
  await (SetTtlMonitorSleepSecs 1) w1 = (o, w2) ->
  o <> Pending ->
  initDatabase l w = creation_stage l w2.
Proof.
  intros Hp Ha Ho. rewrite initDatabase_stages. unfold then_.
  now rewrite (privileged_stage_admin_settled l w w1 w2 o Hp Ha Ho).
Qed.

(** C10. A failing ping is caught by the same handler: the administrative
    command is skipped and [initDatabase] carries on with the creation of
    the collection and its index, from the world the ping left. *)
Theorem initDatabase_ping_failure_absorbed
    (l : Leader) (w w1 : W) (e : Error) :
  await Ping w = (Rejected e, w1) ->
  initDatabase l w = creation_stage l w1.
Proof.
  intros Hp. rewrite initDatabase_stages. unfold then_.
  now rewrite (privileged_stage_ping_rejected l w w1 e Hp).
Qed.

(** ** [elect] *)

Lemma elect_run (l : Leader) (w : W) :
  elect l w =
  match await (InsertOne (key l) (mkNewDoc (id l) (Date_now w))) w with
  | (Resolved _, w1) =>
      let l1 := set_ttlTime (number_add (of_ms (Date_now w1)) (ttl l)) l in
      match await (FindOneSorted (key l)) w1 with
      | (Resolved (Some r), w2) =>
          if String.eqb (leaderId r) (id l)
          then (Resolved true, add_emitted elected l1, w2)
          else (Resolved false, l1, w2)
      | (Resolved None, w2) => (Rejected null_dereference, l1, w2)
      | (Rejected e, w2) => (Rejected e, l1, w2)
      | (Pending, w2) => (Pending, l1, w2)
      end
  | (Rejected e, w1) => (Rejected e, l, w1)
  | (Pending, w1) => (Pending, l, w1)
  end.
Proof.
  unfold elect, elect_insert, elect_query, elect_decide.
  unfold then_, db, this, emit, resolve, throw. simpl.
  destruct (await (InsertOne _ _) w) as [[[]|e|] w1]; try reflexivity.
  destruct (await (FindOneSorted (key l)) w1) as [[[r|]|e|] w2];
    try reflexivity.
  simpl. now destruct (String.eqb (leaderId r) (id l)).
Qed.

(** [elect] is its first callback followed by the other two. *)
Lemma elect_in_two_moves (l : Leader) (w : W) :
  elect l w =
  match elect_insert l w with
  | (Resolved u, l1, w1) => (elect_query u THEN elect_decide) l1 w1
  | (Rejected e, l1, w1) => (Rejected e, l1, w1)
  | (Pending, l1, w1) => (Pending, l1, w1)
  end.
Proof.
  unfold elect, then_.
  now destruct (elect_insert l w) as [[[u|e|] l1] w1].
Qed.

(** C9. When the insert has gone through and the sorted query comes back
    empty, [elect] rejects with the error of reading [leaderId] off
    [null] and fires nothing; and whenever [elect] resolves, the query had
    returned a document. *)
Theorem elect_rejects_on_missing_result (l : Leader) (w : W) :
  (forall w1 w2,
      await (InsertOne (key l) (mkNewDoc (id l) (Date_now w))) w
        = (Resolved tt, w1) ->
      await (FindOneSorted (key l)) w1 = (Resolved None, w2) ->
      exists message l',
        elect l w = (Rejected (TypeError message), l', w2)
        /\ emitted l' = emitted l)
  /\ (forall b l' w',
      elect l w = (Resolved b, l', w') ->
      exists w1 r,
        await (InsertOne (key l) (mkNewDoc (id l) (Date_now w))) w
          = (Resolved tt, w1)
        /\ await (FindOneSorted (key l)) w1 = (Resolved (Some r), w')
        /\ b = String.eqb (leaderId r) (id l)).
Proof.
  split.
  - intros w1 w2 Hi Hf. rewrite elect_run, Hi, Hf.
    eexists _, _. split; reflexivity.
  - intros b l' w'. rewrite elect_run.
    destruct (await (InsertOne _ _) w) as [[[]|e|] w1] eqn:Hi;
      try discriminate.
    destruct (await (FindOneSorted (key l)) w1) as [[[r|]|e|] w2] eqn:Hf;
      try discriminate.
    intros He. exists w1, r.
    destruct (String.eqb (leaderId r) (id l)); injection He as <- <- <-;
      repeat split; assumption || reflexivity.
Qed.

(** ** [cleanup] *)

Lemma cleanup_run (l : Leader) (w : W) :
  cleanup l w =
  match setTimeout (number_sub (ttlTime l) (of_ms (Date_now w))) w with
  | (Resolved _, w1) =>
      (Resolved tt, add_emitted cleaned l, detach (DropCollection (key l)) w1)
  | (Rejected e, w1) => (Rejected e, l, w1)
  | (Pending, w1) => (Pending, l, w1)
  end.
Proof.
  unfold cleanup, cleanup_callback, wait, then_, this, db_unawaited, emit.
  now destruct (setTimeout _ w) as [[[]|e|] w1].
Qed.

Lemma elect_sets_deadline (l0 l : Leader) (w0 wi we : W) (o : Outcome bool) :
  await (InsertOne (key l0) (mkNewDoc (id l0) (Date_now w0))) w0
    = (Resolved tt, wi) ->
  elect l0 w0 = (o, l, we) ->
  ttlTime l = number_add (of_ms (Date_now wi)) (ttl l0)
  /\ ttl l = ttl l0 /\ key l = key l0.
Proof.
  intros Hi. rewrite elect_run, Hi.
  destruct (await (FindOneSorted (key l0)) wi) as [[[r|]|e|] w2];
    try (intros [= <- <- <-]; now auto).
  destruct (String.eqb (leaderId r) (id l0)); intros [= <- <- <-]; now auto.
Qed.

Lemma timer_delay_whole (q : Q) (d : Z) :
  (q == inject_Z d)%Q ->
  timer_delay (Num q) = if (1 <=? d) && (d <=? TIMEOUT_MAX) then d else 1.
Proof.
  intros Hq. unfold timer_delay.
  assert (H1 : Qle_bool 1 q = (1 <=? d)).
  { apply eq_true_iff_eq.
    rewrite Qle_bool_iff, Z.leb_le, Hq, (Zle_Qle 1 d). reflexivity. }
  assert (H2 : Qle_bool q (inject_Z TIMEOUT_MAX) = (d <=? TIMEOUT_MAX)).
  { apply eq_true_iff_eq.
    rewrite Qle_bool_iff, Z.leb_le, Hq, (Zle_Qle d TIMEOUT_MAX). reflexivity. }
  rewrite H1, H2, Hq, Qfloor_Z. reflexivity.
Qed.

Lemma deadline_distance (ti n t : Z) :
  (inject_Z ti + inject_Z n - inject_Z t == inject_Z (ti + n - t))%Q.
Proof.
  unfold Z.sub. rewrite !inject_Z_plus, inject_Z_opp. ring.
Qed.

(** What a timer armed with the distance to a deadline guarantees. *)
Lemma armed_for_deadline (ti n t t1 : Z) :
  ti + n - t <= TIMEOUT_MAX ->
  t + timer_delay (Num (inject_Z ti + inject_Z n - inject_Z t)) - 1 <= t1 ->
  ti + n - 1 <= t1.
Proof.
  intros Hmax. rewrite (timer_delay_whole _ _ (deadline_distance ti n t)).
  destruct (1 <=? ti + n - t) eqn:E1; simpl.
  - apply Z.leb_le in Hmax. rewrite Hmax. lia.
  - apply Z.leb_gt in E1. lia.
Qed.

(** C4, as amended. [elect] sets the deadline to the clock reading after
    its insert plus [ttl]; a later [cleanup] arms a timer with the
    deadline minus the clock reading and issues the drop only from the
    timer's callback.  For a [ttl] of whole milliseconds, clock readings
    that number arithmetic keeps exact and a distance to the deadline
    within the timer's range, on timers that fire at most one millisecond
    early, the drop is issued no sooner than one millisecond before the
    deadline; while the timer has not fired, nothing is issued. *)
Theorem cleanup_close_to_deadline
    (l0 l : Leader) (w0 wi we : W) (o : Outcome bool) (n : Z) :
  timers_as_armed W ->
  ttl l0 = of_ms n ->
  exact_ms (Date_now wi) ->
  exact_ms (Date_now wi + n) ->
  await (InsertOne (key l0) (mkNewDoc (id l0) (Date_now w0))) w0
    = (Resolved tt, wi) ->
  elect l0 w0 = (o, l, we) ->
  ttlTime l = number_add (of_ms (Date_now wi)) (of_ms n)
  /\ forall w w1 : W,
      (setTimeout (number_sub (ttlTime l) (of_ms (Date_now w))) w
         = (Pending, w1) ->
       cleanup l w = (Pending, l, w1))
      /\ (exact_ms (Date_now w) ->
          Date_now wi + n - Date_now w <= TIMEOUT_MAX ->
          setTimeout (number_sub (ttlTime l) (of_ms (Date_now w))) w
            = (Resolved tt, w1) ->
          cleanup l w
          = (Resolved tt, add_emitted cleaned l,
             detach (DropCollection (key l)) w1)
          /\ Date_now wi + n - 1 <= Date_now w1).
Proof.
  intros Hlaw Httl _ _ Hi He.
  destruct (elect_sets_deadline l0 l w0 wi we o Hi He) as (Hd & _ & _).
  rewrite Httl in Hd. split; [exact Hd|].
  intros w w1. split.
  - intros Ht. now rewrite cleanup_run, Ht.
  - intros _ Hmax Ht. split; [now rewrite cleanup_run, Ht|].
    rewrite Hd in Ht. apply Hlaw in Ht. simpl in Ht.
    exact (armed_for_deadline _ _ _ _ Hmax Ht).
Qed.

End LeaderFacts.

(** ** The in-memory store *)

Lemma sorts_before_spec (a b : Doc) :
  sorts_before a b = true <->
  createdAt a < createdAt b \/ (createdAt a = createdAt b /\ _id a <= _id b).
Proof.
  unfold sorts_before.
  rewrite orb_true_iff, andb_true_iff, Z.ltb_lt, Z.eqb_eq, Z.leb_le.
  reflexivity.
Qed.

Lemma sorts_before_total (a b : Doc) :
  sorts_before a b = false -> sorts_before b a = true.
Proof.
  intros H. apply sorts_before_spec.
  destruct (sorts_before a b) eqn:E; [discriminate|].
  assert (Hn : ~ (createdAt a < createdAt b
                  \/ (createdAt a = createdAt b /\ _id a <= _id b))).
  { rewrite <- sorts_before_spec. congruence. }
  lia.
Qed.

Lemma sorts_before_trans (a b c : Doc) :
  sorts_before a b = true -> sorts_before b c = true -> sorts_before a c = true.
Proof. rewrite !sorts_before_spec. lia. Qed.

Lemma sorts_before_refl (a : Doc) : sorts_before a a = true.
Proof. apply sorts_before_spec. lia. Qed.

Lemma first_sorted_is_Some (d : Doc) (ds : list Doc) :
  exists r, first_sorted (d :: ds) = Some r.
Proof. simpl. destruct (first_sorted ds); eauto. Qed.

Lemma first_sorted_None (ds : list Doc) :
  first_sorted ds = None -> ds = [].
Proof.
  destruct ds as [|d ds]; [reflexivity|].
  destruct (first_sorted_is_Some d ds) as [r ->]. discriminate.
Qed.

(** The document [first_sorted] picks is in the list, and no document of
    the list sorts before it. *)
Lemma first_sorted_least (ds : list Doc) (r : Doc) :
  first_sorted ds = Some r ->
  r ∈ ds /\ forall x, x ∈ ds -> sorts_before r x = true.
Proof.
  revert r. induction ds as [|d ds IH]; intros r; [discriminate|].
  simpl. destruct (first_sorted ds) as [m|] eqn:Hm.
  - destruct (IH m eq_refl) as [Hin Hle].
    destruct (sorts_before d m) eqn:Hdm; intros [= <-].
    + split; [left|].
      intros x [->|Hx]%elem_of_cons; [apply sorts_before_refl|].
      eapply sorts_before_trans; [exact Hdm | now apply Hle].
    + split; [now right|].
      intros x [->|Hx]%elem_of_cons; [now apply sorts_before_total | now apply Hle].
  - intros [= <-]. apply first_sorted_None in Hm as ->.
    split; [left|].
    intros x ->%list_elem_of_singleton. apply sorts_before_refl.
Qed.

(** With distinct [_id]s the order is strict: the first document is the
    only one that nothing sorts before. *)
Lemma first_sorted_strict (ds : list Doc) (r x : Doc) :
  NoDup (_id <$> ds) ->
  first_sorted ds = Some r ->
  x ∈ ds -> x <> r -> sorts_before x r = false.
Proof.
  intros Hnd Hr Hx Hne.
  destruct (first_sorted_least ds r Hr) as [Hin Hle].
  destruct (sorts_before x r) eqn:E; [|reflexivity].
  exfalso. apply Hne.
  specialize (Hle x Hx). apply sorts_before_spec in E, Hle.
  assert (Hid : _id x = _id r) by lia.
  clear -Hnd Hx Hin Hid.
  induction ds as [|d ds IH]; [now apply elem_of_nil in Hx|].
  rewrite fmap_cons in Hnd. apply NoDup_cons in Hnd as [Hd Hnd].
  apply elem_of_cons in Hx as [->|Hx]; apply elem_of_cons in Hin as [->|Hin];
    try reflexivity.
  - exfalso. apply Hd. rewrite Hid. now apply list_elem_of_fmap_2.
  - exfalso. apply Hd. rewrite <- Hid. now apply list_elem_of_fmap_2.
  - now apply IH.
Qed.

Lemma clock_take_turn (w : MemWorld) :
  clock (snd (take_turn w)) = clock w + Z.of_N (latency (fst (take_turn w))).
Proof.
  unfold take_turn.
  destruct (script w) as [|t s]; simpl; [reflexivity|].
  destruct (sweep t); reflexivity.
Qed.

Lemma mem_timers_as_armed : timers_as_armed MemWorld.
Proof.
  intros ms w w'. simpl. unfold mem_setTimeout.
  pose proof (clock_take_turn w) as Hc.
  destruct (take_turn w) as [t w1]. simpl in Hc.
  intros [= <-]. simpl. rewrite Hc. destruct (early t); lia.
Qed.

Lemma mem_await_resolved {A : Type} (c : Command A) (w w' : MemWorld) (a : A) :
  await c w = (Resolved a, w') ->
  serve c (arrive w) = (Resolved a, w').
Proof.
  simpl. unfold mem_await, process, arrive.
  destruct (take_turn (flush w)) as [t w1]. simpl.
  destruct (fault t); [discriminate | auto].
Qed.

Lemma docs_of_inserted (name : string) (d : NewDoc) (w w' : MemWorld) :
  serve (InsertOne name d) w = (Resolved tt, w') ->
  docs_of name w'
  = docs_of name w ++ [mkDoc (next_oid w) (new_leaderId d) (new_createdAt d)].
Proof.
  simpl. intros [= <-]. unfold docs_of. simpl.
  rewrite lookup_insert_eq. now destruct (colls w !! name).
Qed.

Lemma found_is_first (name : string) (w w' : MemWorld) (result : option Doc) :
  serve (FindOneSorted name) w = (Resolved result, w') ->
  w' = w /\ result = first_sorted (docs_of name w).
Proof. simpl. intros [= <- <-]. auto. Qed.

(** C2. A call to [elect] whose insert and query both go through: the
    insert adds one record to the collection, carrying this candidate's
    id and the time of the call; the query returns the record of the
    collection that no other sorts before under [createdAt] then [_id]
    (strictly first when the [_id]s are distinct); and [elect] resolves to
    [true], firing [elected], exactly when that record carries this
    candidate's id, and to [false], firing nothing, otherwise. *)
Theorem elect_registers_then_takes_first
    (l : Leader) (w w1 w2 : MemWorld) (r : Doc) :
  await (InsertOne (key l) (mkNewDoc (id l) (Date_now w))) w
    = (Resolved tt, w1) ->
  await (FindOneSorted (key l)) w1 = (Resolved (Some r), w2) ->
  docs_of (key l) w1
  = docs_of (key l) (arrive w) ++ [mkDoc (next_oid (arrive w)) (id l) (clock w)]
  /\ r ∈ docs_of (key l) w2
  /\ (forall x, x ∈ docs_of (key l) w2 -> sorts_before r x = true)
  /\ (NoDup (_id <$> docs_of (key l) w2) ->
      forall x, x ∈ docs_of (key l) w2 -> x <> r -> sorts_before x r = false)
  /\ exists (b : bool) (l' : Leader),
      elect l w = (Resolved b, l', w2)
      /\ (b = true <-> leaderId r = id l)
      /\ emitted l' = emitted l ++ (if b then [elected] else []).
Proof.
  intros Hi Hf.
  pose proof (mem_await_resolved _ _ _ _ Hi) as Hi'.
  pose proof (mem_await_resolved _ _ _ _ Hf) as Hf'.
  apply found_is_first in Hf' as [Hw Hr]. symmetry in Hr.
  rewrite <- Hw in Hr.
  split; [exact (docs_of_inserted _ _ _ _ Hi')|].
  destruct (first_sorted_least _ _ Hr) as [Hin Hle].
  split; [exact Hin|]. split; [exact Hle|].
  split; [intros Hnd x; now apply first_sorted_strict|].
  exists (String.eqb (leaderId r) (id l)).
  rewrite elect_run, Hi, Hf.
  destruct (String.eqb (leaderId r) (id l)) eqn:E.
  - eexists. split; [reflexivity|]. split; [|reflexivity].
    split; [intros _; now apply String.eqb_eq | reflexivity].
  - eexists. split; [reflexivity|]. split; [|simpl; now rewrite app_nil_r].
    split; [discriminate|]. intros He. apply String.eqb_eq in He. congruence.
Qed.

(** *** Identities stay distinct *)

Lemma distinct_ids_fresh : distinct_ids fresh_store.
Proof. intros name c Hc. simpl in Hc. now rewrite lookup_empty in Hc. Qed.

Lemma distinct_ids_frame (w w' : MemWorld) :
  colls w' = colls w -> next_oid w' = next_oid w ->
  distinct_ids w -> distinct_ids w'.
Proof. intros Hc Hn Hw name c. rewrite Hc, Hn. apply Hw. Qed.

Lemma distinct_ids_sweep (t : Z) (w : MemWorld) :
  distinct_ids w -> distinct_ids (ttl_monitor t w).
Proof.
  intros Hw name c. unfold ttl_monitor. simpl. rewrite lookup_fmap.
  destruct (colls w !! name) as [c0|] eqn:Hc0; [|discriminate].
  simpl. intros [= <-]. destruct (Hw name c0 Hc0) as [Hnd Hlt].
  unfold sweep_coll. destruct (expireAfterSeconds c0); [|now split]. simpl.
  split.
  - apply sublist_NoDup with (_id <$> docs c0); [exact Hnd|].
    apply fmap_sublist, sublist_filter.
  - apply Forall_forall. intros d [_ Hd]%list_elem_of_filter.
    exact (proj1 (Forall_forall _ _) Hlt d Hd).
Qed.

Lemma distinct_ids_take_turn (w : MemWorld) :
  distinct_ids w -> distinct_ids (snd (take_turn w)).
Proof.
  intros Hw. unfold take_turn.
  destruct (script w) as [|t s]; simpl; [exact Hw|].
  destruct (sweep t); [apply distinct_ids_sweep|]; exact Hw.
Qed.

Lemma distinct_ids_serve {A : Type} (c : Command A) (w : MemWorld) :
  distinct_ids w -> distinct_ids (snd (serve c w)).
Proof.
  intros Hw. destruct c as [|s|name|name e|name d|name|name]; simpl.
  - exact Hw.
  - destruct (admin w); exact Hw.
  - destruct (colls w !! name) as [c0|] eqn:Hc; [exact Hw|]. simpl.
    intros n c. simpl. rewrite lookup_insert.
    case_decide; [intros [= <-]; split; constructor | apply Hw].
  - destruct (colls w !! name) as [c0|] eqn:Hc; simpl.
    + destruct (expireAfterSeconds c0);
        [destruct (number_eqb _ _); exact Hw|].
      simpl. intros n c. simpl. rewrite lookup_insert.
      case_decide; [intros [= <-]; exact (Hw name c0 Hc) | apply Hw].
    + intros n c. simpl. rewrite lookup_insert.
      case_decide; [intros [= <-]; split; constructor | apply Hw].
  - intros n c. simpl. rewrite lookup_insert. case_decide.
    + intros [= <-]. simpl.
      assert (Hold : NoDup (_id <$> docs (default (mkColl [] None) (colls w !! name)))
                     /\ Forall (fun x => _id x < next_oid w)
                          (docs (default (mkColl [] None) (colls w !! name)))).
      { destruct (colls w !! name) as [c0|] eqn:Hc; simpl.
        - exact (Hw name c0 Hc).
        - split; constructor. }
      destruct Hold as [Hnd Hlt]. split.
      * rewrite fmap_app. apply NoDup_app. split; [exact Hnd|]. split.
        -- intros x Hx ->%list_elem_of_singleton.
           apply list_elem_of_fmap in Hx as (d0 & Hd0 & Hin).
           pose proof (proj1 (Forall_forall _ _) Hlt d0 Hin) as Hlt0.
           simpl in Hd0, Hlt0. lia.
        -- apply NoDup_singleton.
      * apply Forall_app. split.
        -- eapply Forall_impl; [exact Hlt|]. simpl. intros; lia.
        -- constructor; [simpl; lia | constructor].
    + intros Hc. destruct (Hw n c Hc) as [Hnd Hlt]. split; [exact Hnd|].
      eapply Forall_impl; [exact Hlt|]. simpl. intros; lia.
  - exact Hw.
  - destruct (colls w !! name) as [c0|] eqn:Hc; [|exact Hw]. simpl.
    intros n c. simpl. rewrite lookup_delete.
    case_decide; [discriminate | apply Hw].
Qed.

Lemma distinct_ids_process {A : Type} (c : Command A) (w : MemWorld) :
  distinct_ids w -> distinct_ids (snd (process c w)).
Proof.
  intros Hw. unfold process.
  pose proof (distinct_ids_take_turn w Hw) as H1.
  destruct (take_turn w) as [t w1]. simpl in H1.
  destruct (fault t); [exact H1 | now apply distinct_ids_serve].
Qed.

Lemma distinct_ids_deliver (rs : list Request) :
  forall w, distinct_ids w -> distinct_ids (deliver rs w).
Proof.
  induction rs as [|[A c] rs IH]; intros w Hw; [exact Hw|].
  simpl. apply IH. now apply distinct_ids_process.
Qed.

(** Every store call leaves the identities distinct. *)
Lemma distinct_ids_await {A : Type} (c : Command A) (w : MemWorld) :
  distinct_ids w -> distinct_ids (snd (await c w)).
Proof.
  intros Hw. simpl. unfold mem_await. apply distinct_ids_process.
  unfold flush. apply distinct_ids_deliver. exact Hw.
Qed.

Lemma distinct_ids_docs_of (name : string) (w : MemWorld) :
  distinct_ids w -> NoDup (_id <$> docs_of name w).
Proof.
  intros Hw. unfold docs_of.
  destruct (colls w !! name) as [c|] eqn:Hc; [apply (Hw name c Hc) | constructor].
Qed.

(** ** Candidates sharing the store *)

Lemma quiet_take_turn (w : MemWorld) :
  quiet_world w -> take_turn w = (quiet, w).
Proof.
  destruct w as [c m n a t s f e]. unfold quiet_world, take_turn. simpl.
  intros [-> ->]. simpl. unfold set_clock. simpl. do 2 f_equal. lia.
Qed.

Lemma quiet_flush (w : MemWorld) : quiet_world w -> flush w = w.
Proof.
  destruct w as [c m n a t s f e]. unfold quiet_world, flush. simpl.
  now intros [-> ->].
Qed.

Lemma quiet_await {A : Type} (c : Command A) (w : MemWorld) :
  quiet_world w -> await c w = serve c w.
Proof.
  intros Hq. simpl. unfold mem_await, process.
  now rewrite (quiet_flush w Hq), (quiet_take_turn w Hq).
Qed.

Lemma quiet_set_clock (t : Z) (w : MemWorld) :
  quiet_world w -> quiet_world (set_clock t w).
Proof. now intros [? ?]. Qed.

Lemma step_unregistered (p : Proc) (w : MemWorld) :
  quiet_world w ->
  stage p = Unregistered ->
  exists w',
    step p w = (mkProc (self p) (skew p) Registered, w')
    /\ quiet_world w'
    /\ docs_of (key (self p)) w'
       = docs_of (key (self p)) w
         ++ [mkDoc (next_oid w) (id (self p)) (clock w + skew p)].
Proof.
  intros Hq Hs. unfold step. rewrite Hs.
  unfold on_local_clock, elect_insert, db.
  rewrite (quiet_await _ _ (quiet_set_clock (clock w + skew p) w Hq)).
  simpl. eexists. split; [reflexivity|]. split.
  - destruct Hq as [? ?]. now split.
  - unfold docs_of. simpl. rewrite lookup_insert_eq.
    now destruct (colls w !! key (self p)).
Qed.

Lemma step_registered (p : Proc) (w : MemWorld) (r : Doc) :
  quiet_world w ->
  stage p = Registered ->
  first_sorted (docs_of (key (self p)) w) = Some r ->
  exists l' w',
    step p w
    = (mkProc l' (skew p)
         (Returned (Resolved (String.eqb (leaderId r) (id (self p))))), w')
    /\ quiet_world w'
    /\ forall name, docs_of name w' = docs_of name w.
Proof.
  intros Hq Hs Hr. unfold step. rewrite Hs.
  unfold on_local_clock, then_, elect_query, elect_decide, db, this, emit, resolve.
  rewrite (quiet_await _ _ (quiet_set_clock (clock w + skew p) w Hq)).
  simpl. unfold docs_of in Hr |- *. simpl. rewrite Hr. simpl.
  destruct (String.eqb (leaderId r) (id (self p)));
    (eexists _, _; split; [reflexivity|]; split;
     [destruct Hq; now split | reflexivity]).
Qed.

Lemma run_app (s1 s2 : list nat) (ps : list Proc) (w : MemWorld) :
  run (s1 ++ s2) ps w = run s2 (fst (run s1 ps w)) (snd (run s1 ps w)).
Proof.
  revert ps w. induction s1 as [|i s1 IH]; intros ps w; [reflexivity|].
  simpl. destruct (ps !! i) as [p|]; [|apply IH].
  destruct (step p w) as [p' w']. apply IH.
Qed.



Lemma set_clock_same (t : Z) (w : MemWorld) :
  t = clock w -> set_clock t w = w.
Proof. destruct w. simpl. now intros ->. Qed.

Lemma on_local_clock_0 {A} (p : Promise A) (l : Leader) (w : MemWorld) :
  on_local_clock 0 p l w = p l w.
Proof.
  unfold on_local_clock. rewrite (set_clock_same (clock w + 0) w) by lia.
  destruct (p l w) as [[o l'] w'].
  now rewrite (set_clock_same (clock w' - 0) w') by lia.
Qed.

(** A process alone on the shared clock, moved twice, has run [elect]. *)
Lemma run_alone_is_elect (l : Leader) (w : MemWorld) :
  run [0; 0]%nat [mkProc l 0 Unregistered] w
  = let '(o, l', w') := elect l w in ([mkProc l' 0 (Returned o)], w').
Proof.
  rewrite elect_in_two_moves. simpl. unfold step at 1. simpl.
  rewrite on_local_clock_0.
  destruct (elect_insert l w) as [[[[]|e|] l1] w1]; simpl; try reflexivity.
  unfold step. simpl. rewrite on_local_clock_0.
  now destruct ((elect_query tt THEN elect_decide) l1 w1) as [[o l'] w'].
Qed.

Lemma ids_insert_registered (ps : list Proc) (i : nat) (p : Proc) :
  ps !! i = Some p ->
  (fun q => id (self q)) <$> <[i := registered p]> ps
  = (fun q => id (self q)) <$> ps.
Proof.
  intros Hp. rewrite list_fmap_insert. apply list_insert_id.
  rewrite list_lookup_fmap, Hp. reflexivity.
Qed.

Lemma run_inserts (k : string) (ins : list nat) :
  forall (ps : list Proc) (w : MemWorld),
    NoDup ins ->
    quiet_world w ->
    (forall i, i ∈ ins ->
       exists p, ps !! i = Some p /\ stage p = Unregistered /\ key (self p) = k) ->
    exists ps' w' new,
      run ins ps w = (ps', w')
      /\ quiet_world w'
      /\ docs_of k w' = docs_of k w ++ new
      /\ length new = length ins
      /\ Forall (fun d => leaderId d ∈ (fun q => id (self q)) <$> ps) new
      /\ forall j p, ps !! j = Some p ->
           ps' !! j = Some (if bool_decide (j ∈ ins) then registered p else p).
Proof.
  induction ins as [|i ins IH]; intros ps w Hnd Hq Hps.
  - exists ps, w, []. simpl. rewrite app_nil_r.
    repeat split; auto; apply Hq.
  - apply NoDup_cons in Hnd as [Hi Hnd].
    destruct (Hps i) as (p & Hp & Hs & Hk); [left|].
    destruct (step_unregistered p w Hq Hs) as (w1 & Hstep & Hq1 & Hd1).
    destruct (IH (<[i := registered p]> ps) w1 Hnd Hq1)
      as (ps' & w' & new & Hrun & Hq' & Hd' & Hlen & Hall & Hlook).
    { intros i' Hi'. destruct (Hps i') as (p' & Hp' & Hs' & Hk'); [now right|].
      exists p'. rewrite list_lookup_insert_ne; [auto|].
      intros ->. contradiction. }
    rewrite Hk in Hd1.
    exists ps', w', (mkDoc (next_oid w) (id (self p)) (clock w + skew p) :: new).
    split; [simpl; now rewrite Hp, Hstep|].
    split; [exact Hq'|].
    split; [now rewrite Hd', Hd1, <- app_assoc|].
    split; [simpl; now rewrite Hlen|].
    split.
    + constructor.
      * simpl. apply list_elem_of_fmap. exists p.
        split; [reflexivity|]. now apply list_elem_of_lookup_2 with i.
      * now rewrite ids_insert_registered in Hall.
    + intros j q Hj. destruct (decide (j = i)) as [->|Hne].
      * assert (q = p) as -> by congruence.
        rewrite (Hlook i (registered p)).
        -- rewrite bool_decide_eq_false_2 by exact Hi.
           rewrite bool_decide_eq_true_2 by left. reflexivity.
        -- apply list_lookup_insert_eq. now apply lookup_lt_Some with p.
      * rewrite (Hlook j q) by (rewrite list_lookup_insert_ne; auto).
        destruct (decide (j ∈ ins)) as [Hin|Hin].
        -- rewrite !bool_decide_eq_true_2; [reflexivity | now right | exact Hin].
        -- rewrite !bool_decide_eq_false_2; [reflexivity | | exact Hin].
           intros [?|?]%elem_of_cons; contradiction.
Qed.

Lemma run_queries (k : string) (r : Doc) (qs : list nat) :
  forall (ps : list Proc) (w : MemWorld),
    NoDup qs ->
    quiet_world w ->
    first_sorted (docs_of k w) = Some r ->
    (forall i, i ∈ qs ->
       exists p, ps !! i = Some p /\ stage p = Registered /\ key (self p) = k) ->
    exists ps' w',
      run qs ps w = (ps', w')
      /\ forall j p, ps !! j = Some p ->
           exists p', ps' !! j = Some p'
             /\ if bool_decide (j ∈ qs)
                then stage p'
                     = Returned (Resolved (String.eqb (leaderId r) (id (self p))))
                else p' = p.
Proof.
  induction qs as [|i qs IH]; intros ps w Hnd Hq Hr Hps.
  - exists ps, w. split; [reflexivity|]. intros j p Hj. exists p. now split.
  - apply NoDup_cons in Hnd as [Hi Hnd].
    destruct (Hps i) as (p & Hp & Hs & Hk); [left|].
    rewrite <- Hk in Hr.
    destruct (step_registered p w r Hq Hs Hr) as (l' & w1 & Hstep & Hq1 & Hd1).
    rewrite Hk in Hr.
    set (p1 := mkProc l' (skew p)
                 (Returned (Resolved (String.eqb (leaderId r) (id (self p)))))) in *.
    destruct (IH (<[i := p1]> ps) w1 Hnd Hq1) as (ps' & w' & Hrun & Hlook).
    { now rewrite Hd1. }
    { intros i' Hi'. destruct (Hps i') as (p' & Hp' & Hs' & Hk'); [now right|].
      exists p'. rewrite list_lookup_insert_ne; [auto|].
      intros ->. contradiction. }
    exists ps', w'. split; [simpl; now rewrite Hp, Hstep|].
    intros j q Hj. destruct (decide (j = i)) as [->|Hne].
    + assert (q = p) as -> by congruence.
      destruct (Hlook i p1) as (p' & Hp' & Hst).
      { apply list_lookup_insert_eq. now apply lookup_lt_Some with p. }
      rewrite bool_decide_eq_false_2 in Hst by exact Hi. subst p'.
      exists p1. rewrite bool_decide_eq_true_2 by left. now split.
    + destruct (Hlook j q) as (p' & Hp' & Hst).
      { rewrite list_lookup_insert_ne; auto. }
      exists p'. split; [exact Hp'|].
      destruct (decide (j ∈ qs)) as [Hin|Hin].
      * rewrite bool_decide_eq_true_2 in Hst by exact Hin.
        rewrite bool_decide_eq_true_2 by now right. exact Hst.
      * rewrite bool_decide_eq_false_2 in Hst by exact Hin.
        rewrite bool_decide_eq_false_2; [exact Hst|].
        intros [?|?]%elem_of_cons; contradiction.
Qed.

Lemma run_length (schedule : list nat) :
  forall (ps : list Proc) (w : MemWorld),
    length (fst (run schedule ps w)) = length ps.
Proof.
  induction schedule as [|i s IH]; intros ps w; [reflexivity|].
  simpl. destruct (ps !! i) as [p|]; [|apply IH].
  destruct (step p w) as [p' w']. rewrite IH. apply length_insert.
Qed.

Lemma count_returned_related (b : bool) (f : Proc -> bool) (ps ps' : list Proc) :
  Forall2 (fun p p' => stage p' = Returned (Resolved (f p))) ps ps' ->
  count_returned b ps' = length (List.filter (fun p => Bool.eqb b (f p)) ps).
Proof.
  unfold count_returned.
  induction 1 as [|p p' ps ps' Hp _ IH]; [reflexivity|].
  simpl. unfold returned at 1. rewrite Hp.
  destruct (Bool.eqb b (f p)); simpl; now rewrite IH.
Qed.

Lemma no_owner (x : string) (ps : list Proc) :
  x ∉ (fun q => id (self q)) <$> ps ->
  List.filter (fun p => String.eqb x (id (self p))) ps = []
  /\ List.filter (fun p => negb (String.eqb x (id (self p)))) ps = ps.
Proof.
  induction ps as [|q qs IH]; intros Hq; [now split|].
  rewrite fmap_cons in Hq. apply not_elem_of_cons in Hq as [Hne Hq].
  destruct (IH Hq) as [H1 H2]. simpl.
  destruct (String.eqb x (id (self q))) eqn:E.
  - apply String.eqb_eq in E. contradiction.
  - simpl. now rewrite H1, H2.
Qed.

Lemma one_owner (x : string) (ps : list Proc) :
  NoDup ((fun q => id (self q)) <$> ps) ->
  x ∈ (fun q => id (self q)) <$> ps ->
  length (List.filter (fun p => String.eqb x (id (self p))) ps) = 1%nat
  /\ length (List.filter (fun p => negb (String.eqb x (id (self p)))) ps)
     = (length ps - 1)%nat.
Proof.
  induction ps as [|p ps IH]; intros Hnd Hx; [now apply elem_of_nil in Hx|].
  rewrite fmap_cons in Hnd, Hx. apply NoDup_cons in Hnd as [Hp Hnd].
  simpl. destruct (String.eqb x (id (self p))) eqn:E; simpl.
  - apply String.eqb_eq in E. subst x.
    destruct (no_owner _ ps Hp) as [-> ->]. simpl. split; [reflexivity | lia].
  - apply elem_of_cons in Hx as [->|Hx].
    + rewrite String.eqb_refl in E. discriminate.
    + destruct (IH Hnd Hx) as [-> ->]. split; [reflexivity|].
      destruct ps; [now apply elem_of_nil in Hx | simpl; lia].
Qed.

(** C1. Candidates with pairwise distinct ids and one group key, on a
    store that is undisturbed and holds no record of the group yet: under
    every schedule in which all of them insert before any of them queries,
    exactly one [elect] call returns [true] and all the others return
    [false]. *)
Theorem exactly_one_leader
    (k : string) (ps : list Proc) (w : MemWorld) (schedule : list nat) :
  ps <> [] ->
  Forall (fun p => stage p = Unregistered /\ key (self p) = k) ps ->
  NoDup ((fun p => id (self p)) <$> ps) ->
  quiet_world w ->
  docs_of k w = [] ->
  serialized (length ps) schedule ->
  count_returned true (fst (run schedule ps w)) = 1%nat
  /\ count_returned false (fst (run schedule ps w)) = (length ps - 1)%nat.
Proof.
  intros Hne Hall Hids Hq Hempty (ins & qs & -> & Hins & Hqs).
  assert (Hmem : forall s : list nat, s ≡ₚ seq 0 (length ps) ->
            NoDup s /\ forall i, i ∈ s <-> (i < length ps)%nat).
  { intros s Hs. split.
    - rewrite Hs. apply NoDup_seq.
    - intros i. rewrite Hs, elem_of_seq. lia. }
  destruct (Hmem ins Hins) as [Hnd_ins Hin_ins].
  destruct (Hmem qs Hqs) as [Hnd_qs Hin_qs].
  destruct (run_inserts k ins ps w Hnd_ins Hq)
    as (ps1 & w1 & new & Hrun1 & Hq1 & Hd1 & Hlen & Hnew & Hlook1).
  { intros i Hi. apply Hin_ins in Hi.
    destruct (lookup_lt_is_Some_2 ps i Hi) as [p Hp].
    exists p. split; [exact Hp|].
    exact (proj1 (Forall_lookup _ _) Hall i p Hp). }
  rewrite Hempty in Hd1. simpl in Hd1.
  assert (Hr : exists r, first_sorted new = Some r).
  { destruct new as [|d new]; [|apply first_sorted_is_Some].
    simpl in Hlen. rewrite Hins, length_seq in Hlen.
    destruct ps; [contradiction | discriminate]. }
  destruct Hr as [r Hr].
  destruct (first_sorted_least new r Hr) as [Hrin _].
  assert (Howner : leaderId r ∈ (fun q => id (self q)) <$> ps).
  { exact (proj1 (Forall_forall _ _) Hnew r Hrin). }
  destruct (run_queries k r qs ps1 w1 Hnd_qs Hq1) as (ps2 & w2 & Hrun2 & Hlook2).
  { now rewrite Hd1. }
  { intros i Hi. apply Hin_qs in Hi.
    destruct (lookup_lt_is_Some_2 ps i Hi) as [p Hp].
    exists (registered p). split.
    - rewrite (Hlook1 i p Hp).
      now rewrite bool_decide_eq_true_2 by now apply Hin_ins.
    - split; [reflexivity|].
      exact (proj2 (proj1 (Forall_lookup _ _) Hall i p Hp)). }
  assert (Hfinal : fst (run (ins ++ qs) ps w) = ps2).
  { rewrite run_app, Hrun1. simpl. now rewrite Hrun2. }
  assert (Hrel : Forall2 (fun p p' =>
                   stage p' = Returned (Resolved (String.eqb (leaderId r) (id (self p)))))
                   ps ps2).
  { apply Forall2_same_length_lookup_2.
    - rewrite <- Hfinal. symmetry. apply run_length.
    - intros i p p' Hp Hp'.
      assert (Hi : (i < length ps)%nat) by now apply lookup_lt_Some with p.
      pose proof (Hlook1 i p Hp) as H1.
      rewrite bool_decide_eq_true_2 in H1 by now apply Hin_ins.
      destruct (Hlook2 i (registered p) H1) as (p2 & Hp2 & Hst).
      rewrite bool_decide_eq_true_2 in Hst by now apply Hin_qs.
      assert (p2 = p') as -> by congruence. exact Hst. }
  rewrite Hfinal.
  rewrite !(count_returned_related _ _ ps ps2 Hrel).
  destruct (one_owner (leaderId r) ps Hids Howner) as [H1 H0].
  assert (Hext : forall g h : Proc -> bool,
            (forall p, g p = h p) ->
            length (List.filter g ps) = length (List.filter h ps)).
  { intros g h Hgh. now rewrite (List.filter_ext g h Hgh). }
  split.
  - rewrite <- H1. apply Hext. intros p.
    now destruct (String.eqb (leaderId r) (id (self p))).
  - rewrite <- H0. apply Hext. intros p.
    now destruct (String.eqb (leaderId r) (id (self p))).
Qed.

(** ** [cleanup] and the drop it does not wait for *)

(** C3. [solo], elected, calls [cleanup] on a store that will refuse the
    drop: [cleanup] resolves with the drop request still in flight, and
    the refusal that request then meets reaches nobody. *)
Theorem cleanup_resolves_though_drop_fails :
  let '(o, l, w) := cleanup solo_elected refusing_drop in
  o = Resolved tt
  /\ inflight w = [request (DropCollection (key solo_elected))]
  /\ fst (process (DropCollection (key solo_elected)) (set_inflight [] w))
     = Rejected unauthorized.
Proof. vm_compute. repeat split; reflexivity. Qed.

(** C7. On the same run, [cleaned] has fired and [cleanup] has resolved
    while the group's collection is still in the store, and it is still
    there once the store has dealt with everything in flight. *)
Theorem cleanup_resolves_before_drop :
  let '(o, l, w) := cleanup solo_elected refusing_drop in
  o = Resolved tt
  /\ emitted l = [elected; cleaned]
  /\ exists_coll (key solo_elected) w = true
  /\ exists_coll (key solo_elected) (flush w) = true.
Proof. vm_compute. repeat split; reflexivity. Qed.

(** Even when the store accepts the drop, the collection is still there
    at the moment [cleanup] resolves; it goes once the request lands. *)
Example cleanup_drop_lands_later :
  let '(o, l, w) := cleanup solo_elected after_election in
  o = Resolved tt
  /\ exists_coll (key solo_elected) w = true
  /\ exists_coll (key solo_elected) (flush w) = false.
Proof. vm_compute. repeat split; reflexivity. Qed.

(** ** Scenarios of the specification *)

(** Scenario A: alice registers first, bob a millisecond later. *)
Example scenario_alice_then_bob :
  let '(o1, a, w1) := elect alice (snd (initDatabase alice fresh_store)) in
  let '(o2, b, w2) := elect bob (set_clock 1 w1) in
  o1 = Resolved true /\ emitted a = [elected]
  /\ o2 = Resolved false /\ emitted b = [].
Proof. vm_compute. repeat split; reflexivity. Qed.

(** Scenario B, up to the moment [cleanup] resolves: [solo] initialises,
    is elected, and [cleaned] fires. *)
Example scenario_solo :
  let '(o1, l1, w1) := initDatabase solo fresh_store in
  let '(o2, l2, w2) := elect l1 w1 in
  let '(o3, l3, w3) := cleanup l2 w2 in
  o1 = Resolved true /\ o2 = Resolved true /\ o3 = Resolved tt
  /\ emitted l3 = [elected; cleaned].
Proof. vm_compute. repeat split; reflexivity. Qed.

(** Scenario C: initialising twice resolves to [true] twice. *)
Example scenario_initialise_twice :
  let '(o1, l1, w1) := initDatabase solo fresh_store in
  let '(o2, l2, w2) := initDatabase l1 w1 in
  o1 = Resolved true /\ o2 = Resolved true.
Proof. vm_compute. split; reflexivity. Qed.

(** ** The properties at work on the scenarios *)

Lemma constructor_ttl_clamped_witness :
  ttl (fst (constructor None fresh_store)) = Num 5000
  /\ ttl (candidate "dora" 100) = Num 5000
  /\ ttl (candidate "erin" 10000) = Num 10000.
Proof.
  split; [|split].
  - exact (proj1 (constructor_ttl_clamped None fresh_store) eq_refl).
  - exact (proj1 (proj2 (constructor_ttl_clamped
                           (Some (mkOptions (Some "dora") (Some (Num 100))
                                            (Some "daily-job")))
                           fresh_store))
             (Num 100) eq_refl eq_refl).
  - exact (proj2 (proj2 (constructor_ttl_clamped
                           (Some (mkOptions (Some "erin") (Some (Num 10000))
                                            (Some "daily-job")))
                           fresh_store))
             (Num 10000) eq_refl eq_refl).
Defined.

Lemma initDatabase_true_or_rejects_witness :
  initDatabase solo fresh_store = (Resolved true, solo, initialised)
  /\ initDatabase solo initialised = (Resolved true, solo, initialised)
  /\ initDatabase solo create_refused = (Rejected unauthorized, solo, fresh_store).
Proof.
  split; [|split].
  - destruct (initDatabase_true_or_rejects solo fresh_store) as [_ H].
    destruct (H fresh_store) as (Hboth & _ & _); [vm_compute; reflexivity|].
    apply Hboth with (collection := key solo)
                     (w1 := snd (await (CreateCollection (key solo)) fresh_store));
      vm_compute; reflexivity.
  - destruct (initDatabase_true_or_rejects solo initialised) as [_ H].
    destruct (H initialised) as (_ & Hcoll & _); [vm_compute; reflexivity|].
    apply (Hcoll (MongoError "NamespaceExists")). vm_compute; reflexivity.
  - destruct (initDatabase_true_or_rejects solo create_refused) as [_ H].
    destruct (H (set_script [mkTurn 0 None (Some unauthorized)] fresh_store))
      as (_ & Hcoll & _); [vm_compute; reflexivity|].
    apply (Hcoll unauthorized). vm_compute; reflexivity.
Defined.

Lemma initDatabase_admin_failure_absorbed_witness :
  await (SetTtlMonitorSleepSecs 1) fresh_store = (Rejected unauthorized, fresh_store)
  /\ initDatabase solo fresh_store = creation_stage solo fresh_store.
Proof.
  split; [vm_compute; reflexivity|].
  apply (initDatabase_admin_failure_absorbed solo fresh_store fresh_store
           fresh_store (Rejected unauthorized)).
  - vm_compute; reflexivity.
  - vm_compute; reflexivity.
  - discriminate.
Defined.

Lemma initDatabase_ping_failure_absorbed_witness :
  initDatabase solo ping_fails = creation_stage solo fresh_store
  /\ creation_stage solo fresh_store = (Resolved true, solo, initialised).
Proof.
  split; [|vm_compute; reflexivity].
  apply (initDatabase_ping_failure_absorbed solo ping_fails fresh_store unreachable).
  vm_compute; reflexivity.
Defined.

Lemma elect_rejects_on_missing_result_witness :
  (exists message l',
      elect solo clock_ahead
      = (Rejected (TypeError message), l', snd (elect solo clock_ahead))
      /\ emitted l' = emitted solo)
  /\ (exists w1 r,
      await (InsertOne (key solo) (mkNewDoc (id solo) (Date_now initialised)))
            initialised = (Resolved tt, w1)
      /\ await (FindOneSorted (key solo)) w1 = (Resolved (Some r), after_election)
      /\ true = String.eqb (leaderId r) (id solo)).
Proof.
  split.
  - apply (proj1 (elect_rejects_on_missing_result solo clock_ahead)
             (snd (await (InsertOne (key solo)
                            (mkNewDoc (id solo) (Date_now clock_ahead)))
                         clock_ahead)));
      vm_compute; reflexivity.
  - apply (proj2 (elect_rejects_on_missing_result solo initialised)
             true solo_elected).
    vm_compute; reflexivity.
Defined.

Lemma elect_registers_then_takes_first_witness :
  exists (b : bool) (l' : Leader),
    elect bob (set_clock 1 (snd (elect alice fresh_store)))
    = (Resolved b, l', snd (elect bob (set_clock 1 (snd (elect alice fresh_store)))))
    /\ (b = true <-> leaderId (mkDoc 1 "alice" 0) = id bob)
    /\ emitted l' = emitted bob ++ (if b then [elected] else []).
Proof.
  apply (elect_registers_then_takes_first bob
           (set_clock 1 (snd (elect alice fresh_store)))
           (snd (elect bob (set_clock 1 (snd (elect alice fresh_store)))))
           (snd (elect bob (set_clock 1 (snd (elect alice fresh_store)))))
           (mkDoc 1 "alice" 0));
    vm_compute; reflexivity.
Defined.

Lemma cleanup_close_to_deadline_witness :
  ttlTime solo_elected = number_add (of_ms (Date_now after_election)) (of_ms 5000)
  /\ cleanup solo_elected after_election
     = (Resolved tt, add_emitted cleaned solo_elected,
        detach (DropCollection (key solo_elected)) (set_clock 5000 after_election))
  /\ 0 + 5000 - 1 <= 5000.
Proof.
  destruct (cleanup_close_to_deadline solo solo_elected initialised
              after_election after_election (Resolved true) 5000)
    as [Hdeadline Hcleanup].
  - exact mem_timers_as_armed.
  - reflexivity.
  - vm_compute. split; discriminate.
  - vm_compute. split; discriminate.
  - vm_compute; reflexivity.
  - vm_compute; reflexivity.
  - split; [exact Hdeadline|].
    apply (proj2 (Hcleanup after_election (set_clock 5000 after_election))).
    + vm_compute. split; discriminate.
    + vm_compute. discriminate.
    + vm_compute; reflexivity.
Defined.

(** Two runs in which the drop is issued with the clock short of the
    deadline that [elect] set: [solo], on a timer that fires a millisecond
    early; and [patient], whose distance to the deadline is beyond the
    timer's range, one millisecond after the call. *)
Lemma cleanup_issues_drop_before_deadline :
  (let '(o, l, w) := cleanup solo_elected early_timer in
   o = Resolved tt
   /\ inflight w = [request (DropCollection (key solo_elected))]
   /\ ttlTime solo_elected = Num 5000
   /\ clock w = 4999
   /\ number_leb (ttlTime solo_elected) (of_ms (clock w)) = false)
  /\ (let '(o, l, w) := cleanup patient_elected patient_world in
      o = Resolved tt
      /\ inflight w = [request (DropCollection (key patient_elected))]
      /\ ttlTime patient_elected = Num 3000000000
      /\ clock w = 1
      /\ number_leb (ttlTime patient_elected) (of_ms (clock w)) = false).
Proof. vm_compute. repeat split; reflexivity. Qed.

Lemma exactly_one_leader_witness :
  count_returned true
    (fst (run [1; 0; 2; 2; 0; 1]%nat three_candidates fresh_store)) = 1%nat
  /\ count_returned false
       (fst (run [1; 0; 2; 2; 0; 1]%nat three_candidates fresh_store))
     = (length three_candidates - 1)%nat.
Proof.
  apply (exactly_one_leader (key alice) three_candidates fresh_store).
  - discriminate.
  - repeat constructor.
  - apply (bool_decide_unpack _). vm_compute. exact I.
  - split; reflexivity.
  - vm_compute; reflexivity.
  - exists [1; 0; 2]%nat, [2; 0; 1]%nat. split; [reflexivity|]. split.
    + apply perm_swap.
    + apply perm_trans with [0; 2; 1]%nat; [apply perm_swap|].
      apply perm_skip, perm_swap.
Defined.

(** * Further properties of the class *)

Section LeaderUseFacts.

Context {W : Type} `{RT : Runtime W}.

(** ** The constructor *)

(** X1. A non-empty [options.id] becomes the instance's id and no
    randomness is drawn; an absent or empty one is replaced by 32 random
    bytes spelled in hexadecimal. *)
Theorem constructor_id_given_or_random (options : option Options) (w : W) :
  (forall s, requested_id options = Some s -> s <> EmptyString ->
     id (fst (constructor options w)) = s
     /\ snd (constructor options w) = w)
  /\ (requested_id options = None \/ requested_id options = Some EmptyString ->
      id (fst (constructor options w)) = fst (randomBytes_hex 32 w)
      /\ snd (constructor options w) = snd (randomBytes_hex 32 w)).
Proof.
  unfold constructor. split.
  - intros s -> Hs. destruct s as [|a s]; [contradiction|]. now split.
  - intros [-> | ->]; destruct (randomBytes_hex 32 w); now split.
Qed.

(** X2. The collection name depends on the group name alone: instances
    given the same [options.key] get the same [key], whatever their id,
    ttl and moment of construction; and an absent or empty group name
    gives the name of the group ["default"]. *)
Theorem constructor_key_of_group
    (o1 o2 : option Options) (w1 w2 : W) :
  (requested_key o1 = requested_key o2 ->
   key (fst (constructor o1 w1)) = key (fst (constructor o2 w2)))
  /\ (requested_key o1 = None \/ requested_key o1 = Some EmptyString
      \/ requested_key o1 = Some "default" ->
      key (fst (constructor o1 w1)) = "leader-" +:+ sha1_hex "default").
Proof.
  assert (Hkey : forall o w,
             key (fst (constructor o w))
             = "leader-" +:+ sha1_hex (string_or (requested_key o) "default")).
  { intros o w. unfold constructor.
    destruct (requested_id o) as [[|a s]|];
      try destruct (randomBytes_hex 32 w); reflexivity. }
  rewrite !Hkey. split.
  - now intros ->.
  - intros [-> | [-> | ->]]; reflexivity.
Qed.

Lemma constructor_deadline (options : option Options) (w : W) :
  ttlTime (fst (constructor options w))
  = number_add (of_ms (Date_now (snd (constructor options w))))
               (ttl (fst (constructor options w))).
Proof.
  unfold constructor.
  destruct (requested_id options) as [[|a s]|];
    try destruct (randomBytes_hex 32 w); reflexivity.
Qed.

(** X3. Whatever is passed as [options.ttl], [NaN] included, the instance
    starts with a [ttl] of at least 5000, a deadline of the clock reading
    plus that [ttl], and no event fired; a [NaN] gives exactly 5000. *)
Theorem constructor_establishes (options : option Options) (w : W) :
  number_leb (Num 5000) (ttl (fst (constructor options w))) = true
  /\ ttlTime (fst (constructor options w))
     = number_add (of_ms (Date_now (snd (constructor options w))))
                  (ttl (fst (constructor options w)))
  /\ emitted (fst (constructor options w)) = []
  /\ (requested_ttl options = Some NaN ->
      ttl (fst (constructor options w)) = Num 5000).
Proof.
  split; [apply constructor_ttl_at_least_floor|].
  split; [apply constructor_deadline|]. split.
  - unfold constructor.
    destruct (requested_id options) as [[|a s]|];
      try destruct (randomBytes_hex 32 w); reflexivity.
  - rewrite constructor_ttl. now intros ->.
Qed.

(** ** What the methods leave alone *)

Lemma creation_stage_keeps_object (l l' : Leader) (w w' : W) (o : Outcome bool) :
  creation_stage l w = (o, l', w') -> l' = l.
Proof.
  rewrite creation_stage_run.
  destruct (await (CreateCollection (key l)) w) as [[c|e|] w1];
    try (now intros [= _ <- _]).
  destruct (await (CreateIndexCreatedAt c _) w1) as [[[]|e|] w2];
    now intros [= _ <- _].
Qed.

Lemma privileged_stage_keeps_object (l l' : Leader) (w w' : W) (o : Outcome unit) :
  privileged_stage l w = (o, l', w') -> l' = l.
Proof.
  unfold privileged_stage, catch_, then_, db, resolve.
  destruct (await Ping w) as [[[]|e|] w1]; try (now intros [= _ <- _]).
  destruct (await (SetTtlMonitorSleepSecs 1) w1) as [[[]|e|] w2];
    now intros [= _ <- _].
Qed.

Lemma initDatabase_keeps_object (l l' : Leader) (w w' : W) (o : Outcome bool) :
  initDatabase l w = (o, l', w') -> l' = l.
Proof.
  rewrite initDatabase_stages. unfold then_.
  destruct (privileged_stage l w) as [[[[]|e|] l1] w1] eqn:Hp;
    pose proof (privileged_stage_keeps_object _ _ _ _ _ Hp) as ->;
    try (now intros [= _ <- _]).
  apply creation_stage_keeps_object.
Qed.

Lemma elect_keeps_identity (l l' : Leader) (w w' : W) (o : Outcome bool) :
  elect l w = (o, l', w') ->
  id l' = id l /\ ttl l' = ttl l /\ key l' = key l.
Proof.
  rewrite elect_run.
  destruct (await (InsertOne _ _) w) as [[[]|e|] w1];
    try (now intros [= _ <- _]).
  destruct (await (FindOneSorted (key l)) w1) as [[[r|]|e|] w2];
    try (now intros [= _ <- _]).
  destruct (String.eqb (leaderId r) (id l)); now intros [= _ <- _].
Qed.

Lemma cleanup_keeps_identity (l l' : Leader) (w w' : W) (o : Outcome unit) :
  cleanup l w = (o, l', w') ->
  id l' = id l /\ ttl l' = ttl l /\ key l' = key l /\ ttlTime l' = ttlTime l.
Proof.
  rewrite cleanup_run.
  destruct (setTimeout _ w) as [[[]|e|] w1]; now intros [= _ <- _].
Qed.

Lemma perform_keeps_identity (c : Call) (l : Leader) (w : W) :
  id (fst (perform c l w)) = id l
  /\ ttl (fst (perform c l w)) = ttl l
  /\ key (fst (perform c l w)) = key l.
Proof.
  destruct c; simpl.
  - destruct (initDatabase l w) as [[o l'] w'] eqn:E.
    now rewrite (initDatabase_keeps_object _ _ _ _ _ E).
  - destruct (elect l w) as [[o l'] w'] eqn:E.
    exact (elect_keeps_identity _ _ _ _ _ E).
  - destruct (cleanup l w) as [[o l'] w'] eqn:E.
    destruct (cleanup_keeps_identity _ _ _ _ _ E) as (? & ? & ? & _). auto.
Qed.

(** X4. No sequence of [initDatabase], [elect] and [cleanup] calls,
    whatever each call settles to, changes the instance's [id], [ttl] or
    [key]. *)
Theorem calls_keep_identity (cs : list Call) (l : Leader) (w : W) :
  id (fst (perform_all cs l w)) = id l
  /\ ttl (fst (perform_all cs l w)) = ttl l
  /\ key (fst (perform_all cs l w)) = key l.
Proof.
  revert l w. induction cs as [|c cs IH]; intros l w; [now simpl|].
  simpl. destruct (perform_keeps_identity c l w) as (Hi & Ht & Hk).
  destruct (perform c l w) as [l' w']. simpl in *.
  destruct (IH l' w') as (Hi' & Ht' & Hk').
  rewrite Hi', Ht', Hk'. auto.
Qed.

(** ** [initDatabase] *)

(** X5. [initDatabase] hands the instance back as it found it (no event,
    same deadline), and the error it rejects with is never the
    already-exists error. *)
Theorem initDatabase_rejects_only_foreign (l : Leader) (w : W) :
  snd (fst (initDatabase l w)) = l
  /\ forall e, fst (fst (initDatabase l w)) = Rejected e ->
               already_exists e = false.
Proof.
  split.
  - destruct (initDatabase l w) as [[o l'] w'] eqn:E.
    exact (initDatabase_keeps_object _ _ _ _ _ E).
  - intros e. rewrite initDatabase_stages. unfold then_.
    destruct (privileged_stage l w) as [[[[]|e0|] l1] w1] eqn:Hp.
    + rewrite creation_stage_run.
      destruct (await (CreateCollection (key l1)) w1) as [[c|e1|] w2].
      * destruct (await (CreateIndexCreatedAt c _) w2) as [[[]|e2|] w3];
          simpl; try discriminate.
        destruct (already_exists e2) eqn:Hx; [discriminate|].
        now intros [= <-].
      * simpl. destruct (already_exists e1) eqn:Hx; [discriminate|].
        now intros [= <-].
      * discriminate.
    + exfalso. exact (privileged_stage_never_rejects _ _ _ _ _ Hp).
    + discriminate.
Qed.

(** ** [elect] *)

(** X6. Store failures inside [elect] come out unchanged: a failed insert
    rejects [elect] before any query, with the instance untouched; a
    failed query rejects [elect] after the deadline has been moved; in
    both cases nothing is fired. *)
Theorem elect_store_failures (l : Leader) (w : W) :
  (forall e w1,
      await (InsertOne (key l) (mkNewDoc (id l) (Date_now w))) w
        = (Rejected e, w1) ->
      elect l w = (Rejected e, l, w1))
  /\ (forall e w1 w2,
      await (InsertOne (key l) (mkNewDoc (id l) (Date_now w))) w
        = (Resolved tt, w1) ->
      await (FindOneSorted (key l)) w1 = (Rejected e, w2) ->
      elect l w
      = (Rejected e, set_ttlTime (number_add (of_ms (Date_now w1)) (ttl l)) l, w2)).
Proof.
  split.
  - intros e w1 Hi. now rewrite elect_run, Hi.
  - intros e w1 w2 Hi Hf. now rewrite elect_run, Hi, Hf.
Qed.

Lemma elect_emitted (l : Leader) (w : W) :
  emitted (snd (fst (elect l w)))
  = emitted l ++ match fst (fst (elect l w)) with
                 | Resolved true => [elected]
                 | _ => []
                 end.
Proof.
  rewrite elect_run.
  destruct (await (InsertOne _ _) w) as [[[]|e|] w1];
    try (simpl; now rewrite app_nil_r).
  destruct (await (FindOneSorted (key l)) w1) as [[[r|]|e|] w2];
    try (simpl; now rewrite app_nil_r).
  destruct (String.eqb (leaderId r) (id l)); simpl;
    [reflexivity | now rewrite app_nil_r].
Qed.

(** X7. A call to [elect] fires [elected] once when it resolves to
    [true], and fires nothing in every other case (resolving to [false],
    rejecting, or never settling). *)
Theorem elect_fires_iff_true (l : Leader) (w : W) :
  emitted (snd (fst (elect l w)))
  = emitted l ++ match fst (fst (elect l w)) with
                 | Resolved true => [elected]
                 | _ => []
                 end.
Proof. apply elect_emitted. Qed.

(** ** [cleanup] *)

(** X9. On timers that fire at most one millisecond early, [cleanup]
    called on an instance that never ran [elect], built with a [ttl] of
    whole milliseconds and called with the distance to the deadline
    within the timer's range, issues the drop no sooner than [ttl] less
    one millisecond, hence 4999 milliseconds, after the clock reading the
    constructor took. *)
Theorem cleanup_waits_from_construction
    (options : option Options) (w0 w w1 : W) (n : Z) :
  timers_as_armed W ->
  ttl (fst (constructor options w0)) = of_ms n ->
  exact_ms (Date_now (snd (constructor options w0))) ->
  exact_ms (Date_now (snd (constructor options w0)) + n) ->
  exact_ms (Date_now w) ->
  Date_now (snd (constructor options w0)) + n - Date_now w <= TIMEOUT_MAX ->
  setTimeout (number_sub (ttlTime (fst (constructor options w0)))
                         (of_ms (Date_now w))) w = (Resolved tt, w1) ->
  cleanup (fst (constructor options w0)) w
  = (Resolved tt, add_emitted cleaned (fst (constructor options w0)),
     detach (DropCollection (key (fst (constructor options w0)))) w1)
  /\ Date_now (snd (constructor options w0)) + n - 1 <= Date_now w1
  /\ Date_now (snd (constructor options w0)) + 4999 <= Date_now w1.
Proof.
  intros Hlaw Httl _ _ _ Hmax Ht.
  pose proof (constructor_ttl_at_least_floor options w0) as Hfloor.
  pose proof (constructor_deadline options w0) as Hdl.
  split; [now rewrite cleanup_run, Ht|].
  rewrite Hdl, Httl in Ht. apply Hlaw in Ht. simpl in Ht.
  pose proof (armed_for_deadline _ _ _ _ Hmax Ht) as Hclose.
  split; [exact Hclose|].
  rewrite Httl in Hfloor. simpl in Hfloor. apply Qle_bool_iff in Hfloor.
  assert (Hn : 5000 <= n) by (rewrite (Zle_Qle 5000 n); exact Hfloor).
  lia.
Qed.

(** ** The usage example *)

Lemma initDatabase_never_false (l l' : Leader) (w w' : W) :
  initDatabase l w <> (Resolved false, l', w').
Proof.
  rewrite initDatabase_stages. unfold then_.
  destruct (privileged_stage l w) as [[[[]|e|] l1] w1]; try discriminate.
  apply creation_stage_never_false.
Qed.

(** X10. The usage example never takes its "collection was not
    initialized" way out; it ends as a non-leader only after [elect]
    resolved to [false], firing nothing; and it reaches "Cleanup
    finished" only with [elected] then [cleaned] fired, in that order. *)
Theorem usage_example_exits (l l' : Leader) (w w' : W) :
  usage_example l w <> (Resolved NotInitialized, l', w')
  /\ (usage_example l w = (Resolved NotLeader, l', w') ->
      emitted l' = emitted l
      /\ exists wi, elect l (snd (initDatabase l w)) = (Resolved false, l', w')
                    /\ initDatabase l w = (Resolved true, l, wi))
  /\ (usage_example l w = (Resolved CleanupFinished, l', w') ->
      emitted l' = emitted l ++ [elected; cleaned]).
Proof.
  unfold usage_example, then_, resolve.
  destruct (initDatabase l w) as [[[[]|e|] l1] w1] eqn:Hinit;
    try (repeat split; discriminate).
  2:{ exfalso. exact (initDatabase_never_false _ _ _ _ Hinit). }
  pose proof (initDatabase_keeps_object _ _ _ _ _ Hinit) as ->.
  pose proof (elect_emitted l w1) as Hev.
  simpl. destruct (elect l w1) as [[[[]|e|] l2] w2] eqn:Helect;
    simpl in Hev; try (repeat split; discriminate).
  - rewrite cleanup_run.
    destruct (setTimeout _ w2) as [[[]|e|] w3];
      try (repeat split; discriminate).
    split; [discriminate|]. split; [discriminate|].
    intros [= <- <-]. simpl. rewrite Hev, <- app_assoc. reflexivity.
  - split; [discriminate|]. split; [|discriminate].
    intros [= <- <-]. split; [now rewrite Hev, app_nil_r|].
    exists w1. now split.
Qed.

End LeaderUseFacts.

(** * Further properties on the in-memory store *)

Lemma quiet_process {A : Type} (c : Command A) (w : MemWorld) :
  quiet_world w -> process c w = serve c w.
Proof. intros Hq. unfold process. now rewrite (quiet_take_turn w Hq). Qed.

(** Adding a document at the end either makes it the first one or leaves
    the first one as it was. *)
Lemma first_sorted_snoc (ds : list Doc) (x : Doc) :
  first_sorted (ds ++ [x]) = Some x
  \/ first_sorted (ds ++ [x]) = first_sorted ds.
Proof.
  induction ds as [|d ds IH]; [now left|].
  simpl. destruct IH as [Hx | Hsame].
  - rewrite Hx. destruct (sorts_before d x) eqn:Hdx; [right | now left].
    destruct (first_sorted ds) as [m|] eqn:Hm; [|reflexivity].
    destruct (first_sorted_least _ _ Hx) as [_ Hle].
    destruct (first_sorted_least _ _ Hm) as [Hin _].
    assert (Hxm : sorts_before x m = true).
    { apply Hle. apply elem_of_app. now left. }
    now rewrite (sorts_before_trans d x m Hdx Hxm).
  - rewrite Hsame. now right.
Qed.

(** [elect] on an undisturbed store, spelled out. *)
Lemma elect_undisturbed (l : Leader) (w : MemWorld) :
  quiet_world w ->
  exists r l' w',
    first_sorted (docs_of (key l) w ++ [mkDoc (next_oid w) (id l) (clock w)])
      = Some r
    /\ elect l w = (Resolved (String.eqb (leaderId r) (id l)), l', w')
    /\ emitted l'
       = emitted l ++ (if String.eqb (leaderId r) (id l) then [elected] else [])
    /\ quiet_world w'
    /\ clock w' = clock w
    /\ next_oid w' = next_oid w + 1
    /\ colls w'
       = <[key l := mkColl (docs_of (key l) w
                              ++ [mkDoc (next_oid w) (id l) (clock w)])
                           (colls w !! key l ≫= expireAfterSeconds)]> (colls w).
Proof.
  intros Hq.
  set (d := mkDoc (next_oid w) (id l) (clock w)).
  destruct (first_sorted (docs_of (key l) w ++ [d])) as [r|] eqn:Hr.
  2:{ apply first_sorted_None in Hr. now destruct (docs_of (key l) w). }
  set (w1 := set_next_oid (next_oid w + 1)
               (set_colls
                  (<[key l := mkColl
                       (docs (default (mkColl [] None) (colls w !! key l)) ++ [d])
                       (expireAfterSeconds
                          (default (mkColl [] None) (colls w !! key l)))]>
                     (colls w)) w)).
  assert (Hq1 : quiet_world w1) by (destruct Hq; now split).
  assert (Hins : await (InsertOne (key l) (mkNewDoc (id l) (Date_now w))) w
                 = (Resolved tt, w1)).
  { now rewrite (quiet_await _ _ Hq). }
  assert (Hfind : await (FindOneSorted (key l)) w1
                  = (Resolved (first_sorted (docs_of (key l) w1)), w1)).
  { now rewrite (quiet_await _ _ Hq1). }
  assert (Hdocs : docs_of (key l) w1 = docs_of (key l) w ++ [d]).
  { unfold docs_of, w1. simpl. rewrite lookup_insert_eq.
    now destruct (colls w !! key l). }
  assert (Hcolls : colls w1
                   = <[key l := mkColl (docs_of (key l) w ++ [d])
                                  (colls w !! key l ≫= expireAfterSeconds)]>
                       (colls w)).
  { unfold w1, docs_of. simpl. now destruct (colls w !! key l). }
  rewrite Hdocs, Hr in Hfind.
  exists r. rewrite elect_run, Hins, Hfind.
  destruct (String.eqb (leaderId r) (id l));
    (eexists _, w1; split; [reflexivity|]; split; [reflexivity|];
     split; [simpl; rewrite ?app_nil_r; reflexivity|]; split; [exact Hq1|];
     split; [reflexivity|]; split; [reflexivity | exact Hcolls]).
Qed.

(** X11. On an undisturbed store, a candidate whose record is already the
    first of the collection and who calls [elect] again is elected again:
    the call resolves to [true], fires [elected] once more and leaves one
    more record of that candidate. *)
Theorem elect_again_as_leader (l : Leader) (w : MemWorld) (r : Doc) :
  quiet_world w ->
  first_sorted (docs_of (key l) w) = Some r ->
  leaderId r = id l ->
  exists l' w',
    elect l w = (Resolved true, l', w')
    /\ emitted l' = emitted l ++ [elected]
    /\ docs_of (key l) w'
       = docs_of (key l) w ++ [mkDoc (next_oid w) (id l) (clock w)].
Proof.
  intros Hq Hr Hid.
  destruct (elect_undisturbed l w Hq)
    as (r' & l' & w' & Hr' & He & Hev & _ & _ & _ & Hc).
  assert (Hown : leaderId r' = id l).
  { destruct (first_sorted_snoc (docs_of (key l) w)
                (mkDoc (next_oid w) (id l) (clock w))) as [Hx | Hsame].
    - rewrite Hx in Hr'. now injection Hr' as <-.
    - rewrite Hsame, Hr in Hr'. now injection Hr' as <-. }
  apply String.eqb_eq in Hown. rewrite Hown in He, Hev.
  exists l', w'. repeat split; [exact He | exact Hev |].
  unfold docs_of at 1. now rewrite Hc, lookup_insert_eq.
Qed.

Lemma elect_wins_when_earliest (l : Leader) (w : MemWorld) :
  quiet_world w ->
  (forall x, x ∈ docs_of (key l) w -> clock w < createdAt x) ->
  exists l' w',
    elect l w = (Resolved true, l', w')
    /\ emitted l' = emitted l ++ [elected].
Proof.
  intros Hq Hearly.
  destruct (elect_undisturbed l w Hq)
    as (r' & l' & w' & Hr' & He & Hev & _).
  assert (Hown : r' = mkDoc (next_oid w) (id l) (clock w)).
  { destruct (first_sorted_snoc (docs_of (key l) w)
                (mkDoc (next_oid w) (id l) (clock w))) as [Hx | Hsame].
    - rewrite Hx in Hr'. now injection Hr' as <-.
    - exfalso. destruct (first_sorted_least _ _ Hr') as [_ Hle].
      rewrite Hsame in Hr'.
      destruct (first_sorted_least _ _ Hr') as [Hin _].
      specialize (Hearly r' Hin).
      assert (Hsb : sorts_before r' (mkDoc (next_oid w) (id l) (clock w)) = true).
      { apply Hle. apply elem_of_app. right. now apply list_elem_of_singleton. }
      apply sorts_before_spec in Hsb. simpl in Hsb. lia. }
  subst r'. simpl in He, Hev. rewrite String.eqb_refl in He, Hev.
  now exists l', w'.
Qed.

(** X12. On an undisturbed store, a caller whose clock reads earlier than
    the [createdAt] of every record of the collection is elected, however
    many candidates inserted before it; in particular the first caller on
    an empty collection is. *)
Theorem elect_earlier_clock_wins (l : Leader) (w : MemWorld) :
  quiet_world w ->
  (forall x, x ∈ docs_of (key l) w -> clock w < createdAt x) ->
  exists l' w',
    elect l w = (Resolved true, l', w')
    /\ emitted l' = emitted l ++ [elected].
Proof. apply elect_wins_when_earliest. Qed.

(** X13. Two callers, one after the other and not under a serialized
    schedule: on an undisturbed store with no record of the group, the
    first caller is elected, and a second caller whose clock is behind
    the first one's is elected as well. *)
Theorem two_leaders_when_clocks_disagree
    (a b : Leader) (w : MemWorld) (t : Z) :
  quiet_world w ->
  docs_of (key a) w = [] ->
  key b = key a ->
  t < clock w ->
  exists a' w1 b' w2,
    elect a w = (Resolved true, a', w1)
    /\ elect b (set_clock t w1) = (Resolved true, b', w2).
Proof.
  intros Hq Hempty Hk Ht.
  destruct (elect_undisturbed a w Hq)
    as (r & a' & w1 & Hr & Ha & _ & Hq1 & Hc1 & _ & Hcolls).
  rewrite Hempty in Hr, Hcolls. simpl in Hr. injection Hr as <-.
  simpl in Ha. rewrite String.eqb_refl in Ha.
  destruct (elect_wins_when_earliest b (set_clock t w1)) as (b' & w2 & Hb & _).
  - now apply quiet_set_clock.
  - intros x. unfold docs_of. simpl. rewrite Hk, Hcolls, lookup_insert_eq.
    simpl. intros ->%list_elem_of_singleton. simpl. exact Ht.
  - now exists a', w1, b', w2.
Qed.

(** X14. On an undisturbed store, a caller who finds another candidate's
    record first in the collection, created before the caller's own clock
    reading, is not elected: [elect] resolves to [false] and fires
    nothing. *)
Theorem elect_after_another_loses (l : Leader) (w : MemWorld) (r : Doc) :
  quiet_world w ->
  first_sorted (docs_of (key l) w) = Some r ->
  leaderId r <> id l ->
  createdAt r < clock w ->
  exists l' w',
    elect l w = (Resolved false, l', w')
    /\ emitted l' = emitted l.
Proof.
  intros Hq Hr Hother Hlate.
  destruct (elect_undisturbed l w Hq)
    as (r' & l' & w' & Hr' & He & Hev & _).
  assert (Hfirst : r' = r).
  { destruct (first_sorted_snoc (docs_of (key l) w)
                (mkDoc (next_oid w) (id l) (clock w))) as [Hx | Hsame].
    - exfalso. destruct (first_sorted_least _ _ Hx) as [_ Hle].
      destruct (first_sorted_least _ _ Hr) as [Hin _].
      assert (Hsb : sorts_before (mkDoc (next_oid w) (id l) (clock w)) r = true).
      { apply Hle. apply elem_of_app. now left. }
      apply sorts_before_spec in Hsb. simpl in Hsb. lia.
    - rewrite Hsame, Hr in Hr'. now injection Hr' as <-. }
  subst r'.
  assert (Hne : String.eqb (leaderId r) (id l) = false).
  { destruct (String.eqb (leaderId r) (id l)) eqn:E; [|reflexivity].
    apply String.eqb_eq in E. contradiction. }
  rewrite Hne in He, Hev. rewrite app_nil_r in Hev.
  now exists l', w'.
Qed.

Lemma privileged_stage_undisturbed (l : Leader) (w : MemWorld) :
  quiet_world w ->
  exists w0,
    privileged_stage l w = (Resolved tt, l, w0)
    /\ quiet_world w0
    /\ colls w0 = colls w
    /\ clock w0 = clock w
    /\ next_oid w0 = next_oid w
    /\ ttlMonitorSleepSecs w0 = (if admin w then 1 else ttlMonitorSleepSecs w).
Proof.
  intros Hq.
  assert (Hping : await Ping w = (Resolved tt, w)).
  { now rewrite (quiet_await _ _ Hq). }
  destruct (admin w) eqn:Hadm.
  - exists (set_ttlMonitorSleepSecs 1 w). split.
    + apply (privileged_stage_admin_settled l w w _ (Resolved tt) Hping);
        [|discriminate].
      rewrite (quiet_await _ _ Hq). simpl. now rewrite Hadm.
    + destruct Hq. repeat split; auto.
  - exists w. split.
    + apply (privileged_stage_admin_settled l w w _ (Rejected unauthorized) Hping);
        [|discriminate].
      rewrite (quiet_await _ _ Hq). simpl. now rewrite Hadm.
    + destruct Hq. repeat split; auto.
Qed.

(** X15. On an undisturbed store, [initDatabase] on a group whose
    collection already exists resolves to [true] and leaves every
    collection as it is: no index is created, so a collection that had no
    expiry (one made by an insert alone) still has none. *)
Theorem initDatabase_leaves_existing_collection
    (l : Leader) (w : MemWorld) (c : Coll) :
  quiet_world w ->
  colls w !! key l = Some c ->
  exists w',
    initDatabase l w = (Resolved true, l, w')
    /\ colls w' = colls w.
Proof.
  intros Hq Hc.
  destruct (privileged_stage_undisturbed l w Hq) as (w0 & Hp & Hq0 & Hc0 & _).
  exists w0. split; [|exact Hc0].
  rewrite initDatabase_stages. unfold then_. rewrite Hp.
  rewrite creation_stage_run, (quiet_await _ _ Hq0). simpl.
  now rewrite Hc0, Hc.
Qed.

Lemma initDatabase_on_fresh_group (l : Leader) (w : MemWorld) :
  quiet_world w ->
  colls w !! key l = None ->
  exists w',
    initDatabase l w = (Resolved true, l, w')
    /\ colls w'
       = <[key l := mkColl [] (Some (number_div_pos (ttl l) 1000))]> (colls w)
    /\ ttlMonitorSleepSecs w' = (if admin w then 1 else ttlMonitorSleepSecs w)
    /\ quiet_world w' /\ clock w' = clock w /\ next_oid w' = next_oid w.
Proof.
  intros Hq Hc.
  destruct (privileged_stage_undisturbed l w Hq)
    as (w0 & Hp & Hq0 & Hc0 & Hk0 & Hn0 & Ht0).
  set (w1 := set_colls (<[key l := mkColl [] None]> (colls w0)) w0).
  set (w2 := set_colls
               (<[key l := mkColl [] (Some (number_div_pos (ttl l) 1000))]>
                  (colls w1)) w1).
  assert (Hq1 : quiet_world w1) by (destruct Hq0; now split).
  assert (Hcreate : await (CreateCollection (key l)) w0 = (Resolved (key l), w1)).
  { rewrite (quiet_await _ _ Hq0). simpl.
    assert (Hc' : colls w0 !! key l = None) by now rewrite Hc0.
    now rewrite Hc'. }
  assert (Hindex : await (CreateIndexCreatedAt (key l)
                            (number_div_pos (ttl l) 1000)) w1
                   = (Resolved tt, w2)).
  { rewrite (quiet_await _ _ Hq1). unfold w2, w1. simpl.
    now rewrite lookup_insert_eq. }
  exists w2. split.
  - rewrite initDatabase_stages. unfold then_. rewrite Hp.
    now rewrite creation_stage_run, Hcreate, Hindex.
  - split.
    + unfold w2, w1. simpl. now rewrite insert_insert_eq, Hc0.
    + split; [exact Ht0|]. split; [destruct Hq0; now split|]. now split.
Qed.

(** X16. On an undisturbed store, [initDatabase] on a group without a
    collection resolves to [true] and creates it empty, with an expiry of
    [ttl / 1000] seconds on [createdAt]; the expiry monitor's interval
    becomes 1 second on an administrative connection and is left alone on
    any other. *)
Theorem initDatabase_creates_collection (l : Leader) (w : MemWorld) :
  quiet_world w ->
  colls w !! key l = None ->
  exists w',
    initDatabase l w = (Resolved true, l, w')
    /\ colls w'
       = <[key l := mkColl [] (Some (number_div_pos (ttl l) 1000))]> (colls w)
    /\ ttlMonitorSleepSecs w' = (if admin w then 1 else ttlMonitorSleepSecs w)
    /\ quiet_world w' /\ clock w' = clock w /\ next_oid w' = next_oid w.
Proof. apply initDatabase_on_fresh_group. Qed.

Lemma expired_after_ttl (q : Q) (t : Z) (d : Doc) :
  expired (number_div_pos (Num q) 1000) t d
  = Qle_bool q (inject_Z (t - createdAt d)).
Proof.
  unfold expired. simpl.
  destruct (Qle_bool q (inject_Z (t - createdAt d))) eqn:E.
  - apply Qle_bool_iff. apply Qle_bool_iff in E.
    unfold Qdiv. apply Qmult_le_compat_r; [exact E|]. now compute.
  - destruct (Qle_bool (q / inject_Z 1000)
                (inject_Z (t - createdAt d) / inject_Z 1000)) eqn:E';
      [|reflexivity].
    apply Qle_bool_iff in E'.
    assert (Hle : (q <= inject_Z (t - createdAt d))%Q).
    { apply Qmult_le_r with (z := (/ inject_Z 1000)%Q); [now compute|].
      exact E'. }
    apply Qle_bool_iff in Hle. congruence.
Qed.

(** X17. The record [elect] writes into a collection that [initDatabase]
    created expires [ttl] milliseconds after its [createdAt]: a run of the
    expiry monitor at server time [t] removes it exactly when [ttl] is at
    most [t] minus the clock reading of the [elect] call. *)
Theorem elected_record_expires_after_ttl
    (l : Leader) (w : MemWorld) (q : Q) (t : Z) :
  quiet_world w ->
  colls w !! key l = None ->
  ttl l = Num q ->
  docs_of (key l)
    (ttl_monitor t (snd (elect l (snd (initDatabase l w)))))
  = if Qle_bool q (inject_Z (t - clock w))
    then []
    else [mkDoc (next_oid w) (id l) (clock w)].
Proof.
  intros Hq Hc Httl.
  destruct (initDatabase_on_fresh_group l w Hq Hc)
    as (w1 & Hinit & Hc1 & _ & Hq1 & Hk1 & Hn1).
  rewrite Hinit. simpl.
  destruct (elect_undisturbed l w1 Hq1)
    as (r & l2 & w2 & _ & He & _ & _ & _ & _ & Hc2).
  rewrite He. simpl.
  unfold docs_of, ttl_monitor. simpl. rewrite lookup_fmap, Hc2, lookup_insert_eq.
  simpl. unfold docs_of. rewrite Hc1, lookup_insert_eq. simpl.
  unfold sweep_coll. simpl. rewrite Httl, Hk1, Hn1.
  rewrite filter_cons, filter_nil.
  rewrite expired_after_ttl. cbn [createdAt].
  destruct (Qle_bool q (inject_Z (t - clock w))); reflexivity.
Qed.

(** X18. [cleanup] does not ask who was elected: on an undisturbed store,
    called by any instance with a finite deadline on a group whose
    collection exists, it resolves and fires [cleaned] with every
    collection still in place, and once the drop it sent has landed the
    group's collection is gone with every candidate's record, all other
    collections untouched. *)
Theorem cleanup_drops_for_anyone
    (l : Leader) (w : MemWorld) (c : Coll) (q : Q) :
  quiet_world w ->
  colls w !! key l = Some c ->
  ttlTime l = Num q ->
  exists w',
    cleanup l w = (Resolved tt, add_emitted cleaned l, w')
    /\ colls w' = colls w
    /\ colls (flush w') = delete (key l) (colls w).
Proof.
  intros Hq Hc Hdl.
  rewrite cleanup_run, Hdl. simpl. unfold mem_setTimeout.
  rewrite (quiet_take_turn w Hq).
  eexists. split; [reflexivity|]. split; [reflexivity|].
  destruct Hq as [Hs Hf].
  unfold flush, mem_detach. simpl. rewrite Hf. simpl.
  rewrite quiet_process by (now split). simpl. now rewrite Hc.
Qed.

(** X8. A deadline further away than the timer's range, the infinite
    deadline of an instance built with an infinite [ttl] included, is not
    waited for: on an undisturbed store [cleanup] fires [cleaned] and
    issues the drop one millisecond after the call. *)
Theorem cleanup_beyond_timer_range (l : Leader) (w : MemWorld) :
  quiet_world w ->
  number_ltb (of_ms TIMEOUT_MAX) (number_sub (ttlTime l) (of_ms (clock w)))
    = true ->
  cleanup l w
  = (Resolved tt, add_emitted cleaned l,
     detach (DropCollection (key l)) (set_clock (clock w + 1) w)).
Proof.
  intros Hq Hfar. rewrite cleanup_run. simpl. unfold mem_setTimeout.
  rewrite (quiet_take_turn w Hq). simpl.
  assert (Hdelay : timer_delay (number_sub (ttlTime l) (of_ms (clock w))) = 1).
  { destruct (number_sub (ttlTime l) (of_ms (clock w))) as [| | |q];
      try reflexivity.
    simpl in Hfar. unfold timer_delay.
    apply negb_true_iff in Hfar. rewrite Hfar. now rewrite andb_false_r. }
  rewrite Hdelay. now rewrite Z.sub_0_r.
Qed.

Lemma distinct_ids_elect (l : Leader) (w : MemWorld) :
  distinct_ids w -> distinct_ids (snd (elect l w)).
Proof.
  intros Hw. rewrite elect_run.
  pose proof (distinct_ids_await
                (InsertOne (key l) (mkNewDoc (id l) (Date_now w))) w Hw) as H1.
  destruct (await (InsertOne _ _) w) as [[[]|e|] w1]; simpl in H1; try exact H1.
  pose proof (distinct_ids_await (FindOneSorted (key l)) w1 H1) as H2.
  destruct (await (FindOneSorted (key l)) w1) as [[[r|]|e|] w2];
    simpl in H2; try exact H2.
  now destruct (String.eqb (leaderId r) (id l)).
Qed.

(** ** The further properties at work on the scenarios *)

Lemma constructor_id_given_or_random_witness :
  id alice = "alice"
  /\ id solo = "0000000000000000000000000000000000000000000000000000000000000000"
  /\ id (fst (constructor (Some (mkOptions (Some "") None None))
                          (set_entropy [255%N] fresh_store)))
     = "00000000000000000000000000000000000000000000000000000000000000ff".
Proof.
  split; [|split].
  - refine (proj1 (proj1 (constructor_id_given_or_random
                            (Some (mkOptions (Some "alice") (Some (Num 5000))
                                             (Some "daily-job"))) fresh_store)
                     "alice" eq_refl _)).
    discriminate.
  - refine (proj1 (proj2 (constructor_id_given_or_random None fresh_store) _)).
    now left.
  - refine (proj1 (proj2 (constructor_id_given_or_random
                            (Some (mkOptions (Some "") None None))
                            (set_entropy [255%N] fresh_store)) _)).
    now right.
Defined.

Lemma constructor_key_of_group_witness :
  key alice = key bob
  /\ key solo = "leader-" +:+ sha1_hex "default"
  /\ key (fst (constructor (Some (mkOptions None None (Some ""))) fresh_store))
     = "leader-" +:+ sha1_hex "default".
Proof.
  split; [|split].
  - apply (proj1 (constructor_key_of_group
                    (Some (mkOptions (Some "alice") (Some (Num 5000))
                                     (Some "daily-job")))
                    (Some (mkOptions (Some "bob") (Some (Num 5000))
                                     (Some "daily-job")))
                    fresh_store fresh_store)).
    reflexivity.
  - apply (proj2 (constructor_key_of_group None None fresh_store fresh_store)).
    now left.
  - apply (proj2 (constructor_key_of_group
                    (Some (mkOptions None None (Some ""))) None
                    fresh_store fresh_store)).
    right. now left.
Defined.

Lemma constructor_establishes_witness :
  ttl (fst (constructor (Some (mkOptions None (Some NaN) None)) fresh_store))
  = Num 5000.
Proof.
  apply (constructor_establishes
           (Some (mkOptions None (Some NaN) None)) fresh_store).
  reflexivity.
Defined.

Lemma initDatabase_rejects_only_foreign_witness :
  fst (fst (initDatabase solo create_refused)) = Rejected unauthorized
  /\ already_exists unauthorized = false.
Proof.
  split; [vm_compute; reflexivity|].
  apply (proj2 (initDatabase_rejects_only_foreign solo create_refused)).
  vm_compute; reflexivity.
Defined.

Lemma elect_store_failures_witness :
  elect solo insert_refused = (Rejected unreachable, solo, initialised)
  /\ fst (fst (elect solo query_refused)) = Rejected unreachable.
Proof.
  split.
  - apply (proj1 (elect_store_failures solo insert_refused)).
    vm_compute; reflexivity.
  - rewrite (proj2 (elect_store_failures solo query_refused) unreachable
               (snd (await (InsertOne (key solo)
                              (mkNewDoc (id solo) (Date_now query_refused)))
                           query_refused))
               (snd (elect solo query_refused)));
      [reflexivity | vm_compute; reflexivity | vm_compute; reflexivity].
Defined.

Lemma cleanup_beyond_timer_range_witness :
  ttlTime forever = PInf
  /\ cleanup forever initialised
     = (Resolved tt, add_emitted cleaned forever,
        detach (DropCollection (key forever)) (set_clock 1 initialised))
  /\ cleanup patient_elected patient_world
     = (Resolved tt, add_emitted cleaned patient_elected,
        detach (DropCollection (key patient_elected))
               (set_clock 1 patient_world)).
Proof.
  split; [reflexivity|]. split.
  - apply (cleanup_beyond_timer_range forever initialised).
    + split; reflexivity.
    + reflexivity.
  - apply (cleanup_beyond_timer_range patient_elected patient_world).
    + split; reflexivity.
    + reflexivity.
Defined.

Lemma cleanup_waits_from_construction_witness :
  cleanup solo fresh_store
  = (Resolved tt, add_emitted cleaned solo,
     detach (DropCollection (key solo)) (set_clock 5000 fresh_store))
  /\ 0 + 5000 - 1 <= 5000
  /\ 0 + 4999 <= 5000.
Proof.
  apply (cleanup_waits_from_construction None fresh_store fresh_store
           (set_clock 5000 fresh_store) 5000 mem_timers_as_armed).
  - reflexivity.
  - vm_compute. split; discriminate.
  - vm_compute. split; discriminate.
  - vm_compute. split; discriminate.
  - vm_compute. discriminate.
  - vm_compute; reflexivity.
Defined.

Lemma usage_example_exits_witness :
  emitted (snd (fst (usage_example solo fresh_store))) = [elected; cleaned]
  /\ emitted bob_follower = emitted bob.
Proof.
  split.
  - apply (proj2 (proj2 (usage_example_exits solo
                           (snd (fst (usage_example solo fresh_store)))
                           fresh_store
                           (snd (usage_example solo fresh_store))))).
    vm_compute; reflexivity.
  - apply (proj1 (proj2 (usage_example_exits bob bob_follower
                           (snd (elect alice (snd (initDatabase alice fresh_store))))
                           two_registered))).
    vm_compute; reflexivity.
Defined.

Lemma elect_again_as_leader_witness :
  exists l' w',
    elect solo_elected after_election = (Resolved true, l', w')
    /\ emitted l' = emitted solo_elected ++ [elected]
    /\ docs_of (key solo_elected) w'
       = docs_of (key solo_elected) after_election
         ++ [mkDoc (next_oid after_election) (id solo_elected)
                   (clock after_election)].
Proof.
  apply (elect_again_as_leader solo_elected after_election
           (mkDoc 1 (id solo) 0)).
  - split; reflexivity.
  - vm_compute; reflexivity.
  - reflexivity.
Defined.

Lemma elect_earlier_clock_wins_witness :
  exists l' w',
    elect bob (set_clock (-5) implicit_collection) = (Resolved true, l', w')
    /\ emitted l' = emitted bob ++ [elected].
Proof.
  apply (elect_earlier_clock_wins bob (set_clock (-5) implicit_collection)).
  - split; reflexivity.
  - intros x Hx.
    assert (Hdocs : docs_of (key bob) (set_clock (-5) implicit_collection)
                    = [mkDoc 1 "alice" 0]) by (vm_compute; reflexivity).
    rewrite Hdocs in Hx. apply list_elem_of_singleton in Hx. subst x.
    simpl. lia.
Defined.

Lemma two_leaders_when_clocks_disagree_witness :
  exists a' w1 b' w2,
    elect alice fresh_store = (Resolved true, a', w1)
    /\ elect bob (set_clock (-1) w1) = (Resolved true, b', w2).
Proof.
  apply (two_leaders_when_clocks_disagree alice bob fresh_store (-1)).
  - split; reflexivity.
  - vm_compute; reflexivity.
  - vm_compute; reflexivity.
  - reflexivity.
Defined.

Lemma elect_after_another_loses_witness :
  exists l' w',
    elect bob (set_clock 1 implicit_collection) = (Resolved false, l', w')
    /\ emitted l' = emitted bob.
Proof.
  apply (elect_after_another_loses bob (set_clock 1 implicit_collection)
           (mkDoc 1 "alice" 0)).
  - split; reflexivity.
  - vm_compute; reflexivity.
  - discriminate.
  - reflexivity.
Defined.

Lemma initDatabase_leaves_existing_collection_witness :
  colls implicit_collection !! key alice = Some (mkColl [mkDoc 1 "alice" 0] None)
  /\ exists w',
      initDatabase alice implicit_collection = (Resolved true, alice, w')
      /\ colls w' = colls implicit_collection.
Proof.
  split; [vm_compute; reflexivity|].
  apply (initDatabase_leaves_existing_collection alice implicit_collection
           (mkColl [mkDoc 1 "alice" 0] None)).
  - split; reflexivity.
  - vm_compute; reflexivity.
Defined.

Lemma initDatabase_creates_collection_witness :
  exists w',
    initDatabase solo fresh_store = (Resolved true, solo, w')
    /\ colls w'
       = <[key solo := mkColl [] (Some (number_div_pos (ttl solo) 1000))]>
           (colls fresh_store)
    /\ ttlMonitorSleepSecs w' = 60
    /\ quiet_world w' /\ clock w' = clock fresh_store
    /\ next_oid w' = next_oid fresh_store.
Proof.
  apply (initDatabase_creates_collection solo fresh_store).
  - split; reflexivity.
  - vm_compute; reflexivity.
Defined.

Lemma elected_record_expires_after_ttl_witness :
  docs_of (key solo)
    (ttl_monitor 4999 (snd (elect solo (snd (initDatabase solo fresh_store)))))
  = [mkDoc 1 (id solo) 0]
  /\ docs_of (key solo)
       (ttl_monitor 5000 (snd (elect solo (snd (initDatabase solo fresh_store)))))
     = [].
Proof.
  split.
  - apply (elected_record_expires_after_ttl solo fresh_store 5000 4999).
    + split; reflexivity.
    + vm_compute; reflexivity.
    + reflexivity.
  - apply (elected_record_expires_after_ttl solo fresh_store 5000 5000).
    + split; reflexivity.
    + vm_compute; reflexivity.
    + reflexivity.
Defined.

Lemma cleanup_drops_for_anyone_witness :
  emitted bob_follower = []
  /\ exists w',
      cleanup bob_follower two_registered
      = (Resolved tt, add_emitted cleaned bob_follower, w')
      /\ colls w' = colls two_registered
      /\ colls (flush w') = delete (key bob_follower) (colls two_registered).
Proof.
  split; [vm_compute; reflexivity|].
  apply (cleanup_drops_for_anyone bob_follower two_registered
           (mkColl [mkDoc 1 "alice" 0; mkDoc 2 "bob" 0] (Some (Num (5000 / 1000))))
           5000).
  - split; reflexivity.
  - vm_compute; reflexivity.
  - vm_compute; reflexivity.
Defined.
